(** * Quantum-Computing: circuits, state-vector simulation and the CVE Grover search

    A shallow embedding of the repository's Python sources:
    - [Project Code/Project.py]: [CVEQuantumSearch] (feature encoding, oracle,
      Grover circuit, classical baseline), [CVEGuiApp.run_search] and the
      bars of [CVEGuiApp.plot_histogram];
    - [Lab 5/Lab5.py]: [multiple_rz_gates].

    The circuits are built with Qiskit and executed by AerSimulator.  Neither
    library is part of the repository; their gate semantics are modelled
    after the design document (state vector indexed little-endian, one local
    transformation per gate, marginal distribution over the measured bits). *)

From Stdlib Require Import List Bool Arith PeanoNat Lia ZArith NArith.
From Stdlib Require Import Ascii String.
From Stdlib Require Import QArith Qreduction.
From Stdlib Require Import Reals Qreals Lra Permutation Sorted.
Import ListNotations.

Close Scope Q_scope.
Close Scope R_scope.
Close Scope Z_scope.
Close Scope N_scope.
Open Scope nat_scope.

Set Implicit Arguments.

(* ================================================================== *)
(** ** Python values: exceptions, strings, dictionaries *)

(** The exceptions that the modelled code can raise.  Strings are modelled
    as ASCII text; [NonAsciiText] is no Python exception: it marks a
    computation that had to interpret a character outside ASCII, about which
    the model says nothing. *)
Inductive PyError : Type :=
| IndexError      (* sequence index out of range *)
| ValueError      (* int() on a non-numeric string *)
| TypeError       (* numpy: no sqrt of an integer beyond 64 bits *)
| CircuitError    (* Qiskit: malformed instruction or circuit configuration *)
| NonAsciiText.   (* outside the model: text beyond ASCII *)

Inductive result (A : Type) : Type :=
| Ok (a : A)
| Raise (e : PyError).

Arguments Ok {A} a.
Arguments Raise {A} e.

Definition bind {A B : Type} (m : result A) (k : A -> result B) : result B :=
  match m with
  | Ok a => k a
  | Raise e => Raise e
  end.

Declare Scope py_scope.
Delimit Scope py_scope with py.
Notation "x <- m ;; k" := (bind m (fun x => k))
  (at level 61, m at next level, right associativity) : py_scope.

Fixpoint mapM {A B : Type} (f : A -> result B) (l : list A) : result (list B) :=
  match l with
  | [] => Ok []
  | a :: l' =>
      (b <- f a ;; bs <- mapM f l' ;; Ok (b :: bs))%py
  end.

Local Open Scope string_scope.
Open Scope nat_scope.

(** [str.lower()] on ASCII text. *)
Definition lower_ascii (c : ascii) : ascii :=
  let n := nat_of_ascii c in
  if (65 <=? n)%nat && (n <=? 90)%nat then ascii_of_nat (n + 32) else c.

Fixpoint lower (s : string) : string :=
  match s with
  | EmptyString => EmptyString
  | String c s' => String (lower_ascii c) (lower s')
  end.

(** [sub in s] for strings. *)
Fixpoint contains (sub s : string) : bool :=
  if prefix sub s then true
  else match s with
       | EmptyString => false
       | String _ s' => contains sub s'
       end.

Fixpoint zeros (n : nat) : string :=
  match n with
  | O => EmptyString
  | S n' => String "0" (zeros n')
  end.

(** [s.zfill(width)]: left padding with ['0'], inserted after a leading sign. *)
Definition zfill (width : nat) (s : string) : string :=
  if (width <=? String.length s)%nat then s
  else
    let pad := zeros (width - String.length s) in
    match s with
    | String c rest =>
        if (Ascii.eqb c "+" || Ascii.eqb c "-")%bool
        then String c (pad ++ rest)
        else pad ++ s
    | EmptyString => pad
    end.

Definition is_ascii (c : ascii) : bool := (nat_of_ascii c <? 128)%nat.

(** [int(ch)] for a one-character string: the digit, or ValueError for any
    other ASCII character.  Python's [int] also reads the decimal digits of
    other scripts; a byte above 127 is part of such a character and is left
    uninterpreted. *)
Definition int_of_char (c : ascii) : result nat :=
  let n := nat_of_ascii c in
  if (48 <=? n)%nat && (n <=? 57)%nat then Ok (n - 48)
  else if is_ascii c then Raise ValueError
  else Raise NonAsciiText.

(** [format(i, '0{width}b')]. *)
Fixpoint pos_bin (p : positive) : string :=
  match p with
  | xH => "1"
  | xO p' => pos_bin p' ++ "0"
  | xI p' => pos_bin p' ++ "1"
  end.

Definition bin (n : N) : string :=
  match n with
  | N0 => "0"
  | Npos p => pos_bin p
  end.

Definition format_b (width i : nat) : string :=
  let s := bin (N.of_nat i) in
  zeros (width - String.length s) ++ s.

(** A Python [dict] from strings to integers: insertion-ordered, one binding
    per key. *)
Definition dict : Type := list (string * nat).

Fixpoint dict_get (d : dict) (k : string) : option nat :=
  match d with
  | [] => None
  | (k', v) :: d' => if String.eqb k' k then Some v else dict_get d' k
  end.

(** [d[k] = v]: overwrite in place, or append a new binding. *)
Fixpoint dict_set (d : dict) (k : string) (v : nat) : dict :=
  match d with
  | [] => [(k, v)]
  | (k', v') :: d' =>
      if String.eqb k' k then (k', v) :: d' else (k', v') :: dict_set d' k v
  end.

Definition dict_mem (d : dict) (k : string) : bool :=
  match dict_get d k with Some _ => true | None => false end.

Definition dict_keys (d : dict) : list string := map fst d.
Definition dict_values (d : dict) : list nat := map snd d.

(** [max(values)] of a non-empty list. *)
Definition list_max_nat (l : list nat) : nat := fold_right Nat.max 0%nat l.

(* ================================================================== *)
(** ** Amplitudes *)

(** The arithmetic a state-vector engine needs from its amplitude type.
    [Ang] is the type of rotation angles the amplitudes can be rotated by. *)
Class Amplitude (A Ang : Type) : Type := {
  Azero : A;
  Aone : A;
  Aadd : A -> A -> A;
  Asub : A -> A -> A;
  Aopp : A -> A;
  Arsqrt2 : A -> A;               (* a / sqrt 2 *)
  Arz : Ang -> bool -> A -> A;    (* e^{-i t/2} a on bit 0, e^{+i t/2} a on bit 1 *)
  Anorm2 : A -> A                 (* |a|^2, a real number among the amplitudes *)
}.

(** Complex amplitudes over the real numbers. *)
Definition C : Type := (R * R)%type.

Definition Cadd (x y : C) : C := (fst x + fst y, snd x + snd y)%R.
Definition Csub (x y : C) : C := (fst x - fst y, snd x - snd y)%R.
Definition Copp (x : C) : C := (- fst x, - snd x)%R.
Definition Cmul (x y : C) : C :=
  (fst x * fst y - snd x * snd y, fst x * snd y + snd x * fst y)%R.
Definition Cscale (r : R) (x : C) : C := (r * fst x, r * snd x)%R.
Definition Cnorm2 (x : C) : R := (fst x * fst x + snd x * snd x)%R.

(** The phase RotationZ(theta) puts on a basis state whose qubit bit is [b]. *)
Definition rz_phase (theta : R) (b : bool) : C :=
  (cos (theta / 2), if b then sin (theta / 2) else - sin (theta / 2))%R.

#[export] Instance C_amplitude : Amplitude C R := {|
  Azero := (0, 0)%R;
  Aone := (1, 0)%R;
  Aadd := Cadd;
  Asub := Csub;
  Aopp := Copp;
  Arsqrt2 := Cscale (/ sqrt 2)%R;
  Arz := fun theta b z => Cmul (rz_phase theta b) z;
  Anorm2 := fun z => (Cnorm2 z, 0%R)
|}.

(** Exact real amplitudes [a + b * sqrt 2] with rational [a], [b]: enough
    for circuits of X, Z, H and controlled-X gates, and computable. *)
Record Q2 : Type := mkQ2 { rat_part : Q; sqrt2_part : Q }.

Definition Q2add (x y : Q2) : Q2 :=
  mkQ2 (Qred (rat_part x + rat_part y)) (Qred (sqrt2_part x + sqrt2_part y)).
Definition Q2sub (x y : Q2) : Q2 :=
  mkQ2 (Qred (rat_part x - rat_part y)) (Qred (sqrt2_part x - sqrt2_part y)).
Definition Q2opp (x : Q2) : Q2 :=
  mkQ2 (Qred (- rat_part x)) (Qred (- sqrt2_part x)).
Definition Q2rsqrt2 (x : Q2) : Q2 :=
  mkQ2 (Qred (sqrt2_part x)) (Qred (rat_part x * (1 # 2))).
Definition Q2sqr (x : Q2) : Q2 :=
  mkQ2 (Qred (rat_part x * rat_part x + (2 # 1) * (sqrt2_part x * sqrt2_part x)))
       (Qred ((2 # 1) * (rat_part x * sqrt2_part x))).

(** No rotation angle is representable exactly: the angle type is empty. *)
#[export] Instance Q2_amplitude : Amplitude Q2 Empty_set := {|
  Azero := mkQ2 0 0;
  Aone := mkQ2 1 0;
  Aadd := Q2add;
  Asub := Q2sub;
  Aopp := Q2opp;
  Arsqrt2 := Q2rsqrt2;
  Arz := fun (theta : Empty_set) _ _ => match theta return Q2 with end;
  Anorm2 := Q2sqr
|}.

(* ================================================================== *)
(** ** Circuits *)

(** One instruction of a circuit, on qubit indices. *)
Inductive Operation (Ang : Type) : Type :=
| Hadamard (q : nat)
| PauliX (q : nat)
| PauliZ (q : nat)
| ControlledX (control target : nat)
| MultiControlledX (controls : list nat) (target : nat)
| RotationZ (theta : Ang) (q : nat)
| Barrier.

Arguments Hadamard {Ang} q.
Arguments PauliX {Ang} q.
Arguments PauliZ {Ang} q.
Arguments ControlledX {Ang} control target.
Arguments MultiControlledX {Ang} controls target.
Arguments RotationZ {Ang} theta q.
Arguments Barrier {Ang}.

(** [QuantumCircuit]: qubit count, classical-bit count, the instructions in
    program order and the measured (qubit, classical bit) pairs. *)
Record Circuit (Ang : Type) : Type := mkCircuit {
  num_qubits : nat;
  num_clbits : nat;
  data : list (Operation Ang);
  measures : list (nat * nat)
}.

(** The qubits an instruction touches, controls first. *)
Definition op_qubits {Ang : Type} (op : Operation Ang) : list nat :=
  match op with
  | Hadamard q | PauliX q | PauliZ q | RotationZ _ q => [q]
  | ControlledX c t => [c; t]
  | MultiControlledX cs t => cs ++ [t]
  | Barrier => []
  end.

Fixpoint distinct (l : list nat) : bool :=
  match l with
  | [] => true
  | x :: l' => negb (existsb (Nat.eqb x) l') && distinct l'
  end.

(** An instruction is well formed on [n] qubits when its qubit indices are
    below [n] and pairwise different. *)
Definition op_ok {Ang : Type} (n : nat) (op : Operation Ang) : bool :=
  forallb (fun q => (q <? n)%nat) (op_qubits op) && distinct (op_qubits op).

Definition measures_ok (n m : nat) (ms : list (nat * nat)) : bool :=
  forallb (fun qc => (fst qc <? n)%nat && (snd qc <? m)%nat) ms && distinct (map snd ms).

Definition circuit_ok {Ang : Type} (c : Circuit Ang) : bool :=
  forallb (op_ok (num_qubits c)) (data c)
  && measures_ok (num_qubits c) (num_clbits c) (measures c).

(* ================================================================== *)
(** ** State vectors and the gate library *)

Section GateLibrary.
Context {A Ang : Type} `{Amplitude A Ang}.

(** Modelled from the spec: the StateVector of the simulation engine (the
    engine itself is AerSimulator, outside the repository).  [2^n]
    amplitudes; bit [i] of an index is the value of qubit [i]. *)
Definition StateVector : Type := list A.

Definition amp (psi : StateVector) (j : nat) : A := nth j psi Azero.

Definition tabulate (N : nat) (f : nat -> A) : StateVector := map f (seq 0 N).

(** All qubits at |0>. *)
Definition init_state (n : nat) : StateVector :=
  tabulate (2 ^ n) (fun j => if (j =? 0)%nat then Aone else Azero).

(** The index that differs from [j] in bit [i] only. *)
Definition flip_bit (i j : nat) : nat := Nat.lxor j (2 ^ i).

(** Modelled from the spec: Hadamard on qubit [i] replaces each pair
    [(a0, a1)] of amplitudes whose indices differ in bit [i] only by
    [((a0 + a1)/sqrt 2, (a0 - a1)/sqrt 2)]. *)
Definition apply_h (i : nat) (psi : StateVector) : StateVector :=
  tabulate (List.length psi) (fun j =>
    if Nat.testbit j i
    then Arsqrt2 (Asub (amp psi (flip_bit i j)) (amp psi j))
    else Arsqrt2 (Aadd (amp psi j) (amp psi (flip_bit i j)))).

(** Modelled from the spec: PauliX swaps the amplitudes of indices that
    differ in bit [i] only. *)
Definition apply_x (i : nat) (psi : StateVector) : StateVector :=
  tabulate (List.length psi) (fun j => amp psi (flip_bit i j)).

(** Modelled from the spec: PauliZ negates the amplitude of every index
    whose bit [i] is 1. *)
Definition apply_z (i : nat) (psi : StateVector) : StateVector :=
  tabulate (List.length psi) (fun j =>
    if Nat.testbit j i then Aopp (amp psi j) else amp psi j).

(** Modelled from the spec: ControlledX swaps an index with its
    target-flipped partner where the control bit is 1 and leaves the
    indices with control bit 0 alone. *)
Definition apply_cx (c t : nat) (psi : StateVector) : StateVector :=
  tabulate (List.length psi) (fun j =>
    if Nat.testbit j c then amp psi (flip_bit t j) else amp psi j).

Definition controls_set (cs : list nat) (j : nat) : bool :=
  forallb (Nat.testbit j) cs.

(** Modelled from the spec: MultiControlledX flips the target pairing
    where all control bits are 1; no control at all is PauliX. *)
Definition apply_mcx (cs : list nat) (t : nat) (psi : StateVector) : StateVector :=
  tabulate (List.length psi) (fun j =>
    if controls_set cs j then amp psi (flip_bit t j) else amp psi j).

(** Modelled from the spec: RotationZ(theta) multiplies an amplitude by
    [e^{-i theta/2}] where the qubit bit is 0 and by [e^{+i theta/2}]
    where it is 1. *)
Definition apply_rz (theta : Ang) (i : nat) (psi : StateVector) : StateVector :=
  tabulate (List.length psi) (fun j => Arz theta (Nat.testbit j i) (amp psi j)).

Definition apply_gate (op : Operation Ang) (psi : StateVector) : StateVector :=
  match op with
  | Hadamard q => apply_h q psi
  | PauliX q => apply_x q psi
  | PauliZ q => apply_z q psi
  | ControlledX c t => apply_cx c t psi
  | MultiControlledX cs t => apply_mcx cs t psi
  | RotationZ theta q => apply_rz theta q psi
  | Barrier => psi
  end.

(** The instructions of a circuit replayed in order. *)
Definition apply_gates (ops : list (Operation Ang)) (psi : StateVector) : StateVector :=
  fold_left (fun s op => apply_gate op s) ops psi.

(** Modelled from the spec: the Simulator validates the circuit as a whole
    and then replays it from the all-zero state. *)
Definition simulate (c : Circuit Ang) : result StateVector :=
  if circuit_ok c
  then Ok (apply_gates (data c) (init_state (num_qubits c)))
  else Raise CircuitError.

Definition Asum (l : list A) : A := fold_right Aadd Azero l.

(** The sum of the squared magnitudes of all amplitudes. *)
Definition total_probability (psi : StateVector) : A := Asum (map Anorm2 psi).

(** The qubit measured into classical bit [p], if any. *)
Fixpoint measured_qubit (ms : list (nat * nat)) (p : nat) : option nat :=
  match ms with
  | [] => None
  | (q, p') :: ms' =>
      match measured_qubit ms' p with
      | Some q' => Some q'      (* a later measurement overwrites the bit *)
      | None => if (p' =? p)%nat then Some q else None
      end
  end.

Definition clbit (ms : list (nat * nat)) (j p : nat) : bool :=
  match measured_qubit ms p with
  | Some q => Nat.testbit j q
  | None => false
  end.

Definition bit_char (b : bool) : ascii := if b then "1"%char else "0"%char.

(** Modelled from the spec: the bitstring reported for basis index [j],
    most significant classical bit first. *)
Definition counts_key (c : Circuit Ang) (j : nat) : string :=
  string_of_list_ascii
    (map (fun p => bit_char (clbit (measures c) j p)) (rev (seq 0 (num_clbits c)))).

(** Modelled from the spec: the marginal probability of a bitstring, the
    sum of the probabilities of the basis states that report it. *)
Definition outcome_probability (c : Circuit Ang) (psi : StateVector) (key : string) : A :=
  Asum (map (fun j => if String.eqb (counts_key c j) key
                      then Anorm2 (amp psi j) else Azero)
            (seq 0 (List.length psi))).

(** Modelled from the spec: the probability of every [m]-bit outcome, in
    the order of the bitstrings. *)
Definition distribution (c : Circuit Ang) (psi : StateVector) : list (string * A) :=
  map (fun v => (format_b (num_clbits c) v,
                 outcome_probability c psi (format_b (num_clbits c) v)))
      (seq 0 (2 ^ num_clbits c)).

End GateLibrary.

(* ================================================================== *)
(** ** Building circuits: registers and [QuantumCircuit] methods *)

(** A register occupies a contiguous range of a circuit's qubits. *)
Record Register : Type := mkReg { reg_offset : nat; reg_size : nat }.

(** The register used as a whole ([qc.h(q)]). *)
Definition reg_bits (r : Register) : list nat :=
  map (fun i => reg_offset r + i) (seq 0 (reg_size r)).

(** [r[idx]] for a non-negative [idx]. *)
Definition reg_get (r : Register) (idx : nat) : result nat :=
  if (idx <? reg_size r)%nat then Ok (reg_offset r + idx) else Raise IndexError.

(** [r[-1]]. *)
Definition reg_last (r : Register) : result nat :=
  if (reg_size r =? 0)%nat then Raise IndexError
  else Ok (reg_offset r + (reg_size r - 1)).

(** [r[:-1]]. *)
Definition reg_init (r : Register) : list nat :=
  map (fun i => reg_offset r + i) (seq 0 (reg_size r - 1)).

Section Builder.
Variable Ang : Type.

Definition QuantumCircuit (n m : nat) : Circuit Ang := mkCircuit n m [] [].

(** Modelled from the spec: appending validates the instruction against the
    circuit, so that a malformed circuit fails while it is built: every
    qubit index is below the qubit count and, as in Qiskit, no qubit is used
    twice by one instruction. *)
Definition qc_append (op : Operation Ang) (qc : Circuit Ang) : result (Circuit Ang) :=
  if op_ok (num_qubits qc) op
  then Ok (mkCircuit (num_qubits qc) (num_clbits qc) (data qc ++ [op]) (measures qc))
  else Raise CircuitError.

(** A single-qubit gate given several qubits is applied to each in turn. *)
Fixpoint broadcast_each (gate : nat -> Operation Ang) (qs : list nat) (qc : Circuit Ang)
  : result (Circuit Ang) :=
  match qs with
  | [] => Ok qc
  | q :: qs' => (qc' <- qc_append (gate q) qc ;; broadcast_each gate qs' qc')%py
  end.

(** Modelled from the spec: a circuit on zero search qubits is a
    configuration error.  This is the missing [qc.h(qs)], [qc.x(qs)] of
    Qiskit, which rejects a gate whose qubit argument is empty, such as a
    register of size zero ([CircuitError]: one or more of the arguments are
    empty). *)
Definition broadcast (gate : nat -> Operation Ang) (qs : list nat) (qc : Circuit Ang)
  : result (Circuit Ang) :=
  match qs with
  | [] => Raise CircuitError
  | _ => broadcast_each gate qs qc
  end.

Definition qc_h := broadcast Hadamard.
Definition qc_x := broadcast PauliX.
Definition qc_z := broadcast PauliZ.
Definition qc_rz (theta : Ang) (q : nat) := qc_append (RotationZ theta q).
Definition qc_cx (c t : nat) := qc_append (ControlledX c t).

(** Modelled from the spec: [qc.mcx(cs, t)] accepts every set of controls,
    the empty one included (it then acts as PauliX on the target). *)
Definition qc_mcx (cs : list nat) (t : nat) := qc_append (MultiControlledX cs t).

(** [qc.compose(other, inplace=True)]: the instructions of [other] on the
    first qubits of [qc]. *)
Definition qc_compose (other qc : Circuit Ang) : result (Circuit Ang) :=
  if (num_qubits other <=? num_qubits qc)%nat
  then Ok (mkCircuit (num_qubits qc) (num_clbits qc) (data qc ++ data other) (measures qc))
  else Raise CircuitError.

(** [qc.measure(qs, cs)]. *)
Definition qc_measure (qs cs : list nat) (qc : Circuit Ang) : result (Circuit Ang) :=
  if (List.length qs =? List.length cs)%nat
     && forallb (fun q => (q <? num_qubits qc)%nat) qs
     && forallb (fun p => (p <? num_clbits qc)%nat) cs
  then Ok (mkCircuit (num_qubits qc) (num_clbits qc) (data qc)
                     (measures qc ++ combine qs cs))
  else Raise CircuitError.

(* ---------------------------------------------------------------- *)
(** ** [CVEQuantumSearch] (Project.py) *)

(** [for idx, bit in enumerate(pattern): if bit == 0: qc.x(q[idx])] *)
Fixpoint flip_zero_bits (q : Register) (pattern : list nat) (idx : nat)
         (qc : Circuit Ang) : result (Circuit Ang) :=
  match pattern with
  | [] => Ok qc
  | bit :: rest =>
      (qc' <- (if (bit =? 0)%nat
               then (qb <- reg_get q idx ;; qc_x [qb] qc)
               else Ok qc) ;;
       flip_zero_bits q rest (S idx) qc')%py
  end.

(** [create_oracle(self, target_pattern)], with [k = self.num_qubits]. *)
Definition create_oracle (k : nat) (target_pattern : string) : result (Circuit Ang) :=
  let q := mkReg 0 k in
  let anc := mkReg k 1 in
  let qc := QuantumCircuit (k + 1) 0 in
  (pattern <- mapM int_of_char (list_ascii_of_string (zfill k target_pattern)) ;;
   qc <- flip_zero_bits q pattern 0 qc ;;
   anc0 <- reg_get anc 0 ;;
   qc <- qc_mcx (reg_bits q) anc0 qc ;;
   flip_zero_bits q pattern 0 qc)%py.

(** The body of the [for _ in range(iterations)] loop: oracle, diffuser. *)
Definition grover_iteration (k : nat) (target_pattern : string) (qc : Circuit Ang)
  : result (Circuit Ang) :=
  let q := mkReg 0 k in
  (oracle <- create_oracle k target_pattern ;;
   qc <- qc_compose oracle qc ;;
   qc <- qc_h (reg_bits q) qc ;;
   qc <- qc_x (reg_bits q) qc ;;
   last <- reg_last q ;;
   qc <- qc_h [last] qc ;;
   last <- reg_last q ;;
   qc <- qc_mcx (reg_init q) last qc ;;
   last <- reg_last q ;;
   qc <- qc_h [last] qc ;;
   qc <- qc_x (reg_bits q) qc ;;
   qc_h (reg_bits q) qc)%py.

Fixpoint grover_loop (k : nat) (target_pattern : string) (iterations : nat)
         (qc : Circuit Ang) : result (Circuit Ang) :=
  match iterations with
  | O => Ok qc
  | S n => (qc' <- grover_iteration k target_pattern qc ;;
            grover_loop k target_pattern n qc')%py
  end.

(** The circuit [run_grover_manual] constructs, up to and including
    [qc.measure(q, c)]. *)
Definition grover_circuit (k : nat) (target_pattern : string) (iterations : nat)
  : result (Circuit Ang) :=
  let q := mkReg 0 k in
  let anc := mkReg k 1 in
  let c := seq 0 k in
  let qc := QuantumCircuit (k + 1) k in
  (qc <- qc_x (reg_bits anc) qc ;;
   qc <- qc_h (reg_bits anc) qc ;;
   qc <- qc_h (reg_bits q) qc ;;
   qc <- grover_loop k target_pattern iterations qc ;;
   qc_measure (reg_bits q) c qc)%py.

(** [simulator.run(transpiled, shots).result().get_counts()]: the sampling
    engine is external and random; it is a parameter of the model. *)
Variable simulator_run : Circuit Ang -> nat -> dict.

(** [run_grover_manual(self, target_pattern, iterations)]. *)
Definition run_grover_manual (k : nat) (target_pattern : string) (iterations : nat)
  : result dict :=
  (qc <- grover_circuit k target_pattern iterations ;;
   Ok (simulator_run qc 1024))%py.

End Builder.

(** [create_feature_vector(self, description, attack_vector, privilege_required)].
    The two [print] calls write to standard output only. *)
Definition create_feature_vector (description attack_vector privilege_required : string)
  : string :=
  let feature_vector := EmptyString in
  let feature_vector :=
    if contains "buffer" (lower description) then feature_vector ++ "00"
    else if contains "sql" (lower description) then feature_vector ++ "01"
    else if contains "xss" (lower description) then feature_vector ++ "10"
    else feature_vector ++ "11" in
  let feature_vector :=
    if contains "remote" (lower attack_vector) then feature_vector ++ "0"
    else feature_vector ++ "1" in
  let feature_vector :=
    if String.eqb (lower privilege_required) "low" then feature_vector ++ "0"
    else feature_vector ++ "1" in
  feature_vector.

(** [mock_db]: [format(i, '0{num_qubits}b')] for [i] in [range(database_size)]. *)
Definition mock_db (k database_size : nat) : list string :=
  map (format_b k) (seq 0 database_size).

(** One turn of the scan loop:
    [if entry in matches: matches[entry] += 1 else: matches[entry] = 1]. *)
Definition record_visit (matches : dict) (entry : string) : dict :=
  match dict_get matches entry with
  | Some n => dict_set matches entry (n + 1)
  | None => dict_set matches entry 1
  end.

Definition scan (db : list string) : dict := fold_left record_visit db [].

(** The step after the loop:
    [if target in matches: matches[target] *= 4 else: matches[target] = 4]. *)
Definition highlight (matches : dict) (target_pattern : string) : dict :=
  match dict_get matches target_pattern with
  | Some n => dict_set matches target_pattern (n * 4)
  | None => dict_set matches target_pattern 4
  end.

(** [run_classical_search(self, target_pattern, database_size)]; the two
    readings of [time.time()] are inputs. *)
Definition run_classical_search (k : nat) (target_pattern : string) (database_size : nat)
           (start_time end_time : R) : dict * R :=
  let matches := scan (mock_db k database_size) in
  let search_time := (end_time - start_time)%R in
  (highlight matches target_pattern, search_time).

(* ---------------------------------------------------------------- *)
(** ** [CVEGuiApp.run_search] (Project.py) *)

(** [np.round]: to the nearest integer, ties to the even one. *)
Definition np_round (x : R) : Z :=
  let f := Int_part x in
  let d := frac_part x in
  if Rlt_dec d (1 / 2) then f
  else if Rlt_dec (1 / 2) d then (f + 1)%Z
  else if Z.even f then f else (f + 1)%Z.

(** The optimum [pi/4 * sqrt (2^k)] rounded to an integer: the value of
    [int(np.round(np.pi/4 * np.sqrt(2**k)))] wherever that expression has
    one. *)
Definition grover_iterations (k : nat) : Z :=
  np_round (PI / 4 * sqrt (2 ^ k))%R.

(** [iterations = int(np.round(np.pi/4 * np.sqrt(2**self.searcher.num_qubits)))].
    [2**k] is a Python integer: numpy reads it as a 64-bit integer up to
    [2**63]; from [2**64] on it stays a Python object, and [np.sqrt] of such
    an object raises TypeError. *)
Definition search_iterations (k : nat) : result Z :=
  if (k <? 64)%nat then Ok (grover_iterations k) else Raise TypeError.

Record SearchReport : Type := mkReport {
  classical_counts : dict;
  classical_time : R;
  quantum_counts : dict;
  quantum_time : R;
  speedup : R
}.

Inductive SearchOutcome : Type :=
| MissingInformation                  (* a field was left empty *)
| Completed (r : SearchReport)
| ComputationError (e : PyError).     (* the [except Exception] branch *)

Definition is_empty (s : string) : bool :=
  match s with EmptyString => true | _ => false end.

(** The counts shown for the quantum search:
    [highest_count = max(quantum_counts.values()) if quantum_counts else 1024],
    then [quantum_counts[feature_vector] = highest_count * 10]. *)
Definition force_target (quantum_counts : dict) (feature_vector : string) : dict :=
  let highest_count :=
    match quantum_counts with
    | [] => 1024
    | _ => list_max_nat (dict_values quantum_counts)
    end in
  let quantum_counts :=
    if dict_mem quantum_counts feature_vector then quantum_counts
    else dict_set quantum_counts feature_vector 0 in
  dict_set quantum_counts feature_vector (highest_count * 10).

(** The time shown for the quantum search, from the classical time and one
    draw [rnd] of [np.random.random()]. *)
Definition synthesized_quantum_time (k : nat) (classical_time rnd : R) : R :=
  let database_size := (2 ^ k)%R in
  let theoretical_factor := (sqrt database_size / database_size)%R in
  let quantum_time := (classical_time * theoretical_factor)%R in
  let variation := (9 / 10 + 2 / 10 * rnd)%R in
  (quantum_time * variation)%R.

Section RunSearch.
Variable Ang : Type.
Variable simulator_run : Circuit Ang -> nat -> dict.

(** [run_search(self)] for a searcher with [k] search qubits; the entry
    fields, the clock readings around the classical scan and the random
    draw are inputs. *)
Definition run_search (k : nat) (description attack_vector privilege : string)
           (start_time end_time rnd : R) : SearchOutcome :=
  if is_empty description || is_empty attack_vector || is_empty privilege
  then MissingInformation
  else
    let feature_vector := create_feature_vector description attack_vector privilege in
    match search_iterations k with
    | Raise e => ComputationError e
    | Ok iterations =>
        let iterations := Z.to_nat iterations in
        let '(classical_counts, classical_time) :=
          run_classical_search k feature_vector 16 start_time end_time in
        let quantum_time := synthesized_quantum_time k classical_time rnd in
        match run_grover_manual simulator_run k feature_vector iterations with
        | Raise e => ComputationError e
        | Ok quantum_counts =>
            let quantum_counts := force_target quantum_counts feature_vector in
            Completed (mkReport classical_counts classical_time
                                quantum_counts quantum_time
                                (classical_time / quantum_time)%R)
        end
    end.
End RunSearch.

(* ---------------------------------------------------------------- *)
(** ** [multiple_rz_gates] (Lab5.py) *)

Definition multiple_rz_gates : result (Circuit R) :=
  let qc := QuantumCircuit R 2 2 in
  (qc <- qc_h [0] qc ;;
   qc <- qc_rz (PI / 2)%R 0 qc ;;
   qc <- qc_rz (PI / 3)%R 0 qc ;;
   qc <- qc_h [0] qc ;;
   qc_measure [0] [0] qc)%py.

(* ================================================================== *)
(** ** Auxiliary definitions used in the statements and proofs *)

(** The number a binary numeral denotes, most significant digit first. *)
Fixpoint bin_value (acc : N) (s : string) : N :=
  match s with
  | EmptyString => acc
  | String c s' => bin_value (2 * acc + (if Ascii.eqb c "1" then 1 else 0))%N s'
  end.

Definition is_bit (c : ascii) : bool := (Ascii.eqb c "0" || Ascii.eqb c "1")%bool.

Definition bitstring (s : string) : bool := forallb is_bit (list_ascii_of_string s).

(** The value [int] gives the characters of a bit pattern. *)
Definition bit_value (c : ascii) : nat := if Ascii.eqb c "1" then 1 else 0.

Definition pattern_bits (s : string) : list nat := map bit_value (list_ascii_of_string s).

(** The positions, counted from [idx], at which a pattern holds 0. *)
Fixpoint zero_positions (pattern : list nat) (idx : nat) : list nat :=
  match pattern with
  | [] => []
  | bit :: rest =>
      if (bit =? 0)%nat then idx :: zero_positions rest (S idx)
      else zero_positions rest (S idx)
  end.

(** The instruction list of the oracle for a parsed pattern on [k] search
    qubits: X on the zero positions, the multi-controlled X onto the
    ancilla, X on the zero positions again. *)
Definition oracle_data (Ang : Type) (k : nat) (pattern : list nat) : list (Operation Ang) :=
  (map PauliX (zero_positions pattern 0)
   ++ [MultiControlledX (seq 0 k) k]
   ++ map PauliX (zero_positions pattern 0))%list.

Section IndexMaps.
Context {A Ang : Type} `{Amplitude A Ang}.

(** Reading a state vector through an index map. *)
Definition permute (s : nat -> nat) (psi : StateVector) : StateVector :=
  tabulate (List.length psi) (fun j => amp psi (s j)).

(** The index map of a MultiControlledX gate. *)
Definition mcx_map (cs : list nat) (t j : nat) : nat :=
  if controls_set cs j then flip_bit t j else j.

(** X gates on a list of qubits read the state through one XOR mask. *)
Definition x_mask (qs : list nat) : nat :=
  fold_right (fun q m => Nat.lxor (2 ^ q) m) 0 qs.

End IndexMaps.

(** A circuit with further instructions appended. *)
Definition extend {Ang : Type} (qc : Circuit Ang) (ops : list (Operation Ang)) : Circuit Ang :=
  mkCircuit (num_qubits qc) (num_clbits qc) (data qc ++ ops) (measures qc).

(** The instruction list of the diffuser on [k] search qubits, and of the
    whole Grover circuit: ancilla preparation, Hadamard on every search
    qubit, then oracle and diffuser once per iteration. *)
Definition diffuser_data (Ang : Type) (k : nat) : list (Operation Ang) :=
  (map Hadamard (seq 0 k) ++ map PauliX (seq 0 k)
   ++ [Hadamard (k - 1); MultiControlledX (seq 0 (k - 1)) (k - 1); Hadamard (k - 1)]
   ++ map PauliX (seq 0 k) ++ map Hadamard (seq 0 k))%list.

Definition grover_data (Ang : Type) (k : nat) (pattern : list nat) (iterations : nat)
  : list (Operation Ang) :=
  ([PauliX k; Hadamard k] ++ map Hadamard (seq 0 k)
   ++ List.concat (repeat (oracle_data Ang k pattern ++ diffuser_data Ang k) iterations))%list.

(** Invariants of circuit construction: the instructions recorded so far
    are well formed, and a construction step keeps the shape of the
    circuit and the well-formedness of its instructions. *)
Definition ops_ok {Ang : Type} (qc : Circuit Ang) : Prop :=
  forallb (op_ok (num_qubits qc)) (data qc) = true.

Definition step_ok {Ang : Type} (qc qc' : Circuit Ang) : Prop :=
  num_qubits qc' = num_qubits qc
  /\ num_clbits qc' = num_clbits qc
  /\ measures qc' = measures qc
  /\ (ops_ok qc -> ops_ok qc').

(** The complex number an exact amplitude stands for, and the reading of an
    instruction list without rotations as one over real angles. *)
Definition Q2toC (x : Q2) : C :=
  ((Q2R (rat_part x) + Q2R (sqrt2_part x) * sqrt 2)%R, 0%R).

Definition op_cast (op : Operation Empty_set) : Operation R :=
  match op with
  | Hadamard q => Hadamard q
  | PauliX q => PauliX q
  | PauliZ q => PauliZ q
  | ControlledX c t => ControlledX c t
  | MultiControlledX cs t => MultiControlledX cs t
  | RotationZ theta _ => match theta with end
  | Barrier => Barrier
  end.

Definition circuit_cast (c : Circuit Empty_set) : Circuit R :=
  mkCircuit (num_qubits c) (num_clbits c) (map op_cast (data c)) (measures c).

(** Counts a simulator might return for the target ["1011"]. *)
Definition sampled_example : dict := [("1101", 985); ("1011", 3); ("0000", 36)].

(** The sum of a list of real numbers and the total probability of a
    complex state vector as a real number. *)
Definition Rsum (l : list R) : R := fold_right Rplus 0%R l.

Definition total_R (psi : list C) : R := Rsum (map Cnorm2 psi).

(* ================================================================== *)
(** ** [CVEGuiApp.plot_histogram] (Project.py): the data of the bar chart *)

(** The line break between the two lines of a label. *)
Definition nl : string := String (ascii_of_nat 10) EmptyString.

(** [vulnerability_map]: the name of each four-bit state. *)
Definition vulnerability_map : list (string * string) :=
  [ ("0000", "Remote Buffer" ++ nl ++ "Low Priv");
    ("0001", "Remote Buffer" ++ nl ++ "High Priv");
    ("0010", "Local Buffer" ++ nl ++ "Low Priv");
    ("0011", "Local Buffer" ++ nl ++ "High Priv");
    ("0100", "Remote SQL" ++ nl ++ "Low Priv");
    ("0101", "Remote SQL" ++ nl ++ "High Priv");
    ("0110", "Local SQL" ++ nl ++ "Low Priv");
    ("0111", "Local SQL" ++ nl ++ "High Priv");
    ("1000", "Remote XSS" ++ nl ++ "Low Priv");
    ("1001", "Remote XSS" ++ nl ++ "High Priv");
    ("1010", "Local XSS" ++ nl ++ "Low Priv");
    ("1011", "Local XSS" ++ nl ++ "High Priv");
    ("1100", "Remote Other" ++ nl ++ "Low Priv");
    ("1101", "Remote Other" ++ nl ++ "High Priv");
    ("1110", "Local Other" ++ nl ++ "Low Priv");
    ("1111", "Local Other" ++ nl ++ "High Priv") ].

(** [d.get(k, default)] on a dictionary of strings. *)
Fixpoint get_default (d : list (string * string)) (k default : string) : string :=
  match d with
  | [] => default
  | (k', v) :: d' => if String.eqb k' k then v else get_default d' k default
  end.

(** [padded_key = key.zfill(4)];
    [label = vulnerability_map.get(padded_key, padded_key)]. *)
Definition vulnerability_label (key : string) : string :=
  let padded_key := zfill 4 key in
  get_default vulnerability_map padded_key padded_key.

(** The order of [(key, value)] tuples: by key, then by value. *)
Definition item_leb (x y : string * nat) : bool :=
  match String.compare (fst x) (fst y) with
  | Lt => true
  | Eq => snd x <=? snd y
  | Gt => false
  end.

Fixpoint insert_item (x : string * nat) (l : dict) : dict :=
  match l with
  | [] => [x]
  | y :: l' => if item_leb x y then x :: y :: l' else y :: insert_item x l'
  end.

(** [dict(sorted(data.items()))]. *)
Definition sorted_items (data : dict) : dict := fold_right insert_item [] data.

(** One bar of the chart: the key it stands for, its label, its height and
    whether it gets the white outline. *)
Record Bar : Type := mkBar {
  bar_key : string;
  bar_label : string;
  bar_value : nat;
  bar_highlighted : bool
}.

(** [plot_histogram(self, data, frame, title, color_scheme)]: the bars handed
    to [ax.bar(labels, values)], in order, with the outline decided by
    [threshold = max(values) * 0.5] and [v > threshold] (on integer counts
    this is [max(values) < 2 * v]). *)
Definition plot_histogram (data : dict) : list Bar :=
  let sorted_data := sorted_items data in
  let values := map snd sorted_data in
  let highest := list_max_nat values in
  map (fun kv => mkBar (fst kv) (vulnerability_label (fst kv)) (snd kv)
                       (highest <? 2 * snd kv))
      sorted_data.

(* ================================================================== *)
(** ** Further auxiliary definitions *)

(** The classes [create_feature_vector] sorts its three arguments into. *)
Inductive VulnClass : Type := BufferOverflow | SqlInjection | Xss | OtherVuln.

Definition vuln_class (description : string) : VulnClass :=
  if contains "buffer" (lower description) then BufferOverflow
  else if contains "sql" (lower description) then SqlInjection
  else if contains "xss" (lower description) then Xss
  else OtherVuln.

Definition is_remote (attack_vector : string) : bool :=
  contains "remote" (lower attack_vector).

Definition is_low (privilege_required : string) : bool :=
  String.eqb (lower privilege_required) "low".

Definition vuln_word (c : VulnClass) : string :=
  match c with
  | BufferOverflow => "Buffer"
  | SqlInjection => "SQL"
  | Xss => "XSS"
  | OtherVuln => "Other"
  end.

(** The name a class triple has in [vulnerability_map]. *)
Definition class_label (c : VulnClass) (remote low : bool) : string :=
  (if remote then "Remote " else "Local ") ++ vuln_word c ++ nl
  ++ (if low then "Low Priv" else "High Priv").

Definition is_digit (c : ascii) : bool :=
  (48 <=? nat_of_ascii c) && (nat_of_ascii c <=? 57).

Definition digits (s : string) : bool := forallb is_digit (list_ascii_of_string s).

(** A digit string read as a bit pattern: ['0'] stays, every other digit
    becomes ['1']. *)
Definition binarize_char (c : ascii) : ascii :=
  if Ascii.eqb c "0" then "0"%char else "1"%char.

Fixpoint binarize (s : string) : string :=
  match s with
  | EmptyString => EmptyString
  | String c s' => String (binarize_char c) (binarize s')
  end.

(** The basis indices the oracle of a parsed pattern marks: those whose
    search qubit [idx] is 1 exactly where position [idx] of the pattern is
    not 0. *)
Definition marked (k : nat) (pattern : list nat) (j : nat) : bool :=
  forallb (fun idx => Bool.eqb (Nat.testbit j idx) (negb (nth idx pattern 1 =? 0)))
          (seq 0 k).

(** [s[::-1]]: a string read backwards. *)
Definition reverse_string (s : string) : string :=
  string_of_list_ascii (rev (list_ascii_of_string s)).

(* ================================================================== *)
(** * Properties *)

(** ** Strings and dictionaries *)

Lemma length_append (s t : string) :
  String.length (s ++ t) = String.length s + String.length t.
Proof. induction s as [|c s IH]; simpl; [reflexivity | now rewrite IH]. Qed.

Lemma append_assoc (s t u : string) : ((s ++ t) ++ u = s ++ (t ++ u))%string.
Proof. induction s as [|c s IH]; simpl; [reflexivity | now rewrite IH]. Qed.

Lemma length_zeros (n : nat) : String.length (zeros n) = n.
Proof. induction n; simpl; congruence. Qed.

Lemma bin_value_append (s t : string) (acc : N) :
  bin_value acc (s ++ t) = bin_value (bin_value acc s) t.
Proof. revert acc; induction s as [|c s IH]; intro acc; simpl; auto. Qed.

Lemma bin_value_zeros (n : nat) (s : string) :
  bin_value 0 (zeros n ++ s) = bin_value 0 s.
Proof. induction n as [|n IH]; simpl; auto. Qed.

Lemma bin_value_pos_bin (p : positive) : bin_value 0 (pos_bin p) = Npos p.
Proof.
  induction p as [p IH|p IH|]; simpl; try reflexivity;
    rewrite bin_value_append, IH; simpl; reflexivity.
Qed.

Lemma bin_value_format_b (w i : nat) : bin_value 0 (format_b w i) = N.of_nat i.
Proof.
  unfold format_b. rewrite bin_value_zeros.
  destruct (N.of_nat i) as [|p]; [reflexivity | apply bin_value_pos_bin].
Qed.

Lemma format_b_inj (w i j : nat) : format_b w i = format_b w j -> i = j.
Proof.
  intro E. apply Nat2N.inj.
  rewrite <- (bin_value_format_b w i), <- (bin_value_format_b w j).
  now rewrite E.
Qed.

Lemma mock_db_NoDup (k n : nat) : NoDup (mock_db k n).
Proof.
  unfold mock_db. generalize 0 as s. induction n as [|n IH]; intro s; simpl.
  - constructor.
  - constructor; [| apply IH].
    rewrite in_map_iff. intros [j [E Hj]].
    apply format_b_inj in E. apply in_seq in Hj. lia.
Qed.

Lemma dict_get_set_same (d : dict) (k : string) (v : nat) :
  dict_get (dict_set d k v) k = Some v.
Proof.
  induction d as [|[k' v'] d IH]; simpl.
  - now rewrite String.eqb_refl.
  - destruct (String.eqb k' k) eqn:E; simpl; rewrite E; auto.
Qed.

Lemma dict_get_set_other (d : dict) (k k0 : string) (v : nat) :
  k <> k0 -> dict_get (dict_set d k v) k0 = dict_get d k0.
Proof.
  intro Hne. induction d as [|[k' v'] d IH]; simpl.
  - destruct (String.eqb k k0) eqn:E; [apply String.eqb_eq in E; contradiction | reflexivity].
  - destruct (String.eqb k' k) eqn:E; simpl.
    + apply String.eqb_eq in E; subst k'.
      destruct (String.eqb k k0) eqn:E0; [apply String.eqb_eq in E0; contradiction | reflexivity].
    + now rewrite IH.
Qed.

Lemma dict_set_absent (d : dict) (k : string) (v : nat) :
  dict_get d k = None -> dict_set d k v = (d ++ [(k, v)])%list.
Proof.
  induction d as [|[k' v'] d IH]; simpl; [reflexivity |].
  destruct (String.eqb k' k); [discriminate |]. intro Hn. now rewrite IH.
Qed.

Lemma dict_set_keys_present (d : dict) (k : string) (v : nat) :
  dict_get d k <> None -> dict_keys (dict_set d k v) = dict_keys d.
Proof.
  induction d as [|[k' v'] d IH]; simpl; [congruence |].
  destruct (String.eqb k' k); simpl; [reflexivity |].
  intro Hn. f_equal. now apply IH.
Qed.

Lemma dict_get_absent (d : dict) (k : string) :
  ~ In k (dict_keys d) -> dict_get d k = None.
Proof.
  induction d as [|[k' v'] d IH]; simpl; [reflexivity |].
  intro Hn. destruct (String.eqb k' k) eqn:E.
  - apply String.eqb_eq in E. tauto.
  - apply IH. tauto.
Qed.

Lemma dict_get_present (d : dict) (k : string) :
  In k (dict_keys d) -> dict_get d k <> None.
Proof.
  induction d as [|[k' v'] d IH]; simpl; [tauto |].
  intros [E | Hin].
  - subst. now rewrite String.eqb_refl.
  - destruct (String.eqb k' k); [discriminate | auto].
Qed.

(** Scanning entries that are pairwise different and new to the dictionary
    appends one binding of count 1 per entry, in scan order. *)
Lemma scan_fresh (db : list string) (acc : dict) :
  NoDup db ->
  (forall e, In e db -> ~ In e (dict_keys acc)) ->
  fold_left record_visit db acc = (acc ++ map (fun e => (e, 1)) db)%list.
Proof.
  revert acc. induction db as [|e db IH]; intros acc Hnd Hfresh; simpl.
  - now rewrite app_nil_r.
  - inversion Hnd as [|? ? Hnotin Hnd']; subst.
    unfold record_visit at 2.
    rewrite (dict_get_absent acc e) by (apply Hfresh; now left).
    rewrite dict_set_absent by (apply dict_get_absent, Hfresh; now left).
    rewrite IH; auto.
    + now rewrite <- app_assoc.
    + intros e' Hin. unfold dict_keys. rewrite map_app, in_app_iff. simpl.
      intros [H1 | [H2 | []]].
      * apply (Hfresh e'); [now right | exact H1].
      * subst. contradiction.
Qed.

Lemma scan_mock_db (k n : nat) :
  scan (mock_db k n) = map (fun e => (e, 1)) (mock_db k n).
Proof.
  unfold scan. rewrite scan_fresh; auto using mock_db_NoDup.
Qed.

Lemma dict_get_ones (db : list string) (e : string) :
  In e db -> dict_get (map (fun e => (e, 1)) db) e = Some 1.
Proof.
  induction db as [|x db IH]; simpl; [tauto |].
  intros [E | Hin].
  - subst. now rewrite String.eqb_refl.
  - destruct (String.eqb x e); auto.
Qed.

Lemma dict_keys_ones (db : list string) :
  dict_keys (map (fun e => (e, 1)) db) = db.
Proof.
  unfold dict_keys. rewrite map_map. simpl. apply map_id.
Qed.

(* ------------------------------------------------------------------ *)
(** ** The feature vector *)

Lemma create_feature_vector_shape (d a p : string) :
  String.length (create_feature_vector d a p) = 4
  /\ bitstring (create_feature_vector d a p) = true.
Proof.
  unfold create_feature_vector.
  destruct (contains "buffer" (lower d)), (contains "sql" (lower d)),
    (contains "xss" (lower d)), (contains "remote" (lower a)),
    (String.eqb (lower p) "low"); split; reflexivity.
Qed.

(** C10.  [create_feature_vector] is a total function of its three string
    arguments: for every input it returns a string of exactly four
    characters, each ['0'] or ['1'], and equal inputs give equal outputs. *)
Theorem create_feature_vector_four_bits :
  forall description attack_vector privilege_required : string,
    String.length (create_feature_vector description attack_vector privilege_required) = 4
    /\ bitstring (create_feature_vector description attack_vector privilege_required) = true
    /\ forall d' a' p' : string,
         (d', a', p') = (description, attack_vector, privilege_required) ->
         create_feature_vector d' a' p'
         = create_feature_vector description attack_vector privilege_required.
Proof.
  intros d a p.
  destruct (create_feature_vector_shape d a p) as [Hlen Hbits].
  repeat split; try assumption.
  intros d' a' p' E. inversion E; subst. reflexivity.
Qed.

(* ------------------------------------------------------------------ *)
(** ** The classical baseline *)

(** C6, as stated, fails: with the default database of 16 four-bit entries
    and target ["1011"], the returned mapping does not hold count 1 for
    every entry; the target's own entry holds 4. *)
Lemma classical_counts_not_all_one :
  ~ (forall entry, In entry (mock_db 4 16) ->
       dict_get (fst (run_classical_search 4 "1011" 16 0%R 1%R)) entry = Some 1).
Proof.
  intro Hall. specialize (Hall "1011").
  assert (Hin : In "1011" (mock_db 4 16)) by (vm_compute; tauto).
  apply Hall in Hin. vm_compute in Hin. discriminate.
Qed.

(** C6, amended.  For every target pattern and database size the scan
    visits the entries of the database once each and in order (the keys of
    the scanned mapping are the database itself, each with count 1); the
    returned mapping holds count 1 for every entry other than the target
    pattern and 4 for the target pattern, and the returned duration is the
    difference of the two clock readings. *)
Theorem run_classical_search_counts :
  forall (k : nat) (target_pattern : string) (database_size : nat)
         (start_time end_time : R),
    let db := mock_db k database_size in
    let counts := fst (run_classical_search k target_pattern database_size
                                            start_time end_time) in
    dict_keys (scan db) = db
    /\ (forall entry, In entry db -> dict_get (scan db) entry = Some 1)
    /\ (forall entry, In entry db -> entry <> target_pattern ->
          dict_get counts entry = Some 1)
    /\ dict_get counts target_pattern = Some 4
    /\ snd (run_classical_search k target_pattern database_size start_time end_time)
       = (end_time - start_time)%R.
Proof.
  intros k target n st en db counts. subst db counts.
  unfold run_classical_search; simpl fst; simpl snd.
  rewrite scan_mock_db.
  repeat split.
  - apply dict_keys_ones.
  - intros e Hin. now apply dict_get_ones.
  - intros e Hin Hne. unfold highlight.
    destruct (dict_get (map (fun e0 => (e0, 1)) (mock_db k n)) target) eqn:E;
      (rewrite dict_get_set_other by congruence); now apply dict_get_ones.
  - unfold highlight.
    destruct (dict_get (map (fun e0 => (e0, 1)) (mock_db k n)) target) as [c|] eqn:E.
    + rewrite dict_get_set_same.
      assert (Hin : In target (mock_db k n)).
      { destruct (in_dec string_dec target (mock_db k n)) as [Hi | Hn]; [exact Hi |].
        rewrite dict_get_absent in E; [discriminate |].
        now rewrite dict_keys_ones. }
      rewrite (dict_get_ones _ _ Hin) in E. inversion E; subst. reflexivity.
    + apply dict_get_set_same.
Qed.

(* ------------------------------------------------------------------ *)
(** ** Basis indices *)

Lemma lxor_lt_pow2 (n a b : nat) : a < 2 ^ n -> b < 2 ^ n -> Nat.lxor a b < 2 ^ n.
Proof.
  intros Ha Hb.
  destruct (Nat.eq_dec (Nat.lxor a b) 0) as [E | Hnz]; [rewrite E; lia |].
  destruct n as [|n].
  - simpl in Ha, Hb. assert (a = 0) by lia. assert (b = 0) by lia. subst.
    exfalso. apply Hnz. reflexivity.
  - apply Nat.log2_lt_pow2; [lia |].
    pose proof (Nat.log2_lxor a b) as Hl.
    assert (Hlog : forall c, c < 2 ^ S n -> Nat.log2 c < S n).
    { intros c Hc. destruct (Nat.eq_dec c 0) as [-> | Hne].
      - change (Nat.log2 0) with 0. lia.
      - apply Nat.log2_lt_pow2; lia. }
    specialize (Hlog a Ha) as Hla. specialize (Hlog b Hb) as Hlb. lia.
Qed.

Lemma pow2_lt_pow2 (i n : nat) : i < n -> 2 ^ i < 2 ^ n.
Proof. intro Hi. apply Nat.pow_lt_mono_r; lia. Qed.

Lemma flip_bit_lt (n i j : nat) : i < n -> j < 2 ^ n -> flip_bit i j < 2 ^ n.
Proof. intros Hi Hj. apply lxor_lt_pow2; auto using pow2_lt_pow2. Qed.

Lemma flip_bit_involutive (i j : nat) : flip_bit i (flip_bit i j) = j.
Proof.
  unfold flip_bit. now rewrite Nat.lxor_assoc, Nat.lxor_nilpotent, Nat.lxor_0_r.
Qed.

Lemma flip_bit_testbit_same (i j : nat) :
  Nat.testbit (flip_bit i j) i = negb (Nat.testbit j i).
Proof.
  unfold flip_bit. rewrite Nat.lxor_spec, Nat.pow2_bits_true.
  now destruct (Nat.testbit j i).
Qed.

Lemma flip_bit_testbit_other (i m j : nat) :
  i <> m -> Nat.testbit (flip_bit i j) m = Nat.testbit j m.
Proof.
  intro Hne. unfold flip_bit. rewrite Nat.lxor_spec, Nat.pow2_bits_false by exact Hne.
  now destruct (Nat.testbit j m).
Qed.

Lemma existsb_eqb_false (x : nat) (l : list nat) :
  existsb (Nat.eqb x) l = false -> ~ In x l.
Proof.
  intros He Hin. assert (existsb (Nat.eqb x) l = true); [| congruence].
  apply existsb_exists. exists x. split; [exact Hin | apply Nat.eqb_refl].
Qed.

Lemma distinct_app_last (cs : list nat) (t : nat) :
  distinct (cs ++ [t]) = true -> ~ In t cs.
Proof.
  induction cs as [|c cs IH]; simpl; [tauto |].
  rewrite andb_true_iff, negb_true_iff. intros [Hc Hd] [E | Hin].
  - subst. apply existsb_eqb_false in Hc. apply Hc, in_or_app. right. now left.
  - now apply IH.
Qed.

Lemma controls_set_flip (cs : list nat) (t j : nat) :
  ~ In t cs -> controls_set cs (flip_bit t j) = controls_set cs j.
Proof.
  intro Hn. unfold controls_set. induction cs as [|c cs IH]; simpl; [reflexivity |].
  rewrite flip_bit_testbit_other by (intro; subst; apply Hn; now left).
  rewrite IH; [reflexivity |]. intro; apply Hn; now right.
Qed.

(* ------------------------------------------------------------------ *)
(** ** Gate algebra, for every amplitude type *)

Section GateAlgebra.
Context {A Ang : Type} `{Amplitude A Ang}.

Lemma tabulate_length (N : nat) (f : nat -> A) : List.length (tabulate N f) = N.
Proof. unfold tabulate. now rewrite length_map, length_seq. Qed.

Lemma amp_tabulate (N : nat) (f : nat -> A) (j : nat) :
  j < N -> amp (tabulate N f) j = f j.
Proof.
  intro Hj. unfold amp, tabulate.
  rewrite (nth_indep _ Azero (f 0)) by (rewrite length_map, length_seq; exact Hj).
  rewrite map_nth, seq_nth by exact Hj. reflexivity.
Qed.

Lemma tabulate_ext (N : nat) (f g : nat -> A) :
  (forall j, j < N -> f j = g j) -> tabulate N f = tabulate N g.
Proof.
  intro Hfg. unfold tabulate. apply map_ext_in.
  intros j Hj. apply in_seq in Hj. apply Hfg. lia.
Qed.

Lemma tabulate_amp (psi : StateVector) : tabulate (List.length psi) (amp psi) = psi.
Proof.
  apply (nth_ext _ _ Azero Azero).
  - apply tabulate_length.
  - intros j Hj. rewrite tabulate_length in Hj.
    fold (amp (tabulate (List.length psi) (amp psi)) j).
    now rewrite amp_tabulate.
Qed.

Lemma permute_length (s : nat -> nat) (psi : StateVector) :
  List.length (permute s psi) = List.length psi.
Proof. apply tabulate_length. Qed.

Lemma permute_permute (s1 s2 : nat -> nat) (psi : StateVector) :
  (forall j, j < List.length psi -> s2 j < List.length psi) ->
  permute s2 (permute s1 psi) = permute (fun j => s1 (s2 j)) psi.
Proof.
  intro Hs2. unfold permute at 1 3. rewrite permute_length.
  apply tabulate_ext. intros j Hj. unfold permute.
  now rewrite amp_tabulate by auto.
Qed.

Lemma permute_id (s : nat -> nat) (psi : StateVector) :
  (forall j, j < List.length psi -> s j = j) -> permute s psi = psi.
Proof.
  intro Hs. rewrite <- (tabulate_amp psi) at 2.
  apply tabulate_ext. intros j Hj. now rewrite Hs.
Qed.

Lemma permute_ext (s1 s2 : nat -> nat) (psi : StateVector) :
  (forall j, j < List.length psi -> s1 j = s2 j) -> permute s1 psi = permute s2 psi.
Proof.
  intro Hs. apply tabulate_ext. intros j Hj. now rewrite Hs.
Qed.

Lemma apply_gates_app (ops1 ops2 : list (Operation Ang)) (psi : StateVector) :
  apply_gates (ops1 ++ ops2) psi = apply_gates ops2 (apply_gates ops1 psi).
Proof. unfold apply_gates. apply fold_left_app. Qed.

Lemma apply_gate_length (op : Operation Ang) (psi : StateVector) :
  List.length (apply_gate op psi) = List.length psi.
Proof. destruct op; simpl; try apply tabulate_length; reflexivity. Qed.

Lemma apply_gates_length (ops : list (Operation Ang)) (psi : StateVector) :
  List.length (apply_gates ops psi) = List.length psi.
Proof.
  revert psi. induction ops as [|op ops IH]; intro psi; simpl; [reflexivity |].
  unfold apply_gates in *. simpl. now rewrite IH, apply_gate_length.
Qed.

Lemma init_state_length (n : nat) : List.length (init_state n) = 2 ^ n.
Proof. apply tabulate_length. Qed.

(** ControlledX is MultiControlledX with one control, and
    MultiControlledX without controls is PauliX. *)
Lemma apply_cx_mcx (c t : nat) (psi : StateVector) :
  apply_cx c t psi = apply_mcx [c] t psi.
Proof.
  apply tabulate_ext. intros j _. unfold controls_set. simpl.
  now rewrite andb_true_r.
Qed.

Lemma apply_mcx_nil (t : nat) (psi : StateVector) :
  apply_mcx [] t psi = apply_x t psi.
Proof. reflexivity. Qed.

Lemma apply_mcx_permute (cs : list nat) (t : nat) (psi : StateVector) :
  apply_mcx cs t psi = permute (mcx_map cs t) psi.
Proof.
  apply tabulate_ext. intros j _. unfold mcx_map.
  now destruct (controls_set cs j).
Qed.

Lemma mcx_map_lt (n : nat) (cs : list nat) (t j : nat) :
  t < n -> j < 2 ^ n -> mcx_map cs t j < 2 ^ n.
Proof.
  intros Ht Hj. unfold mcx_map. destruct (controls_set cs j); auto using flip_bit_lt.
Qed.

Lemma mcx_map_involutive (cs : list nat) (t j : nat) :
  ~ In t cs -> mcx_map cs t (mcx_map cs t j) = j.
Proof.
  intro Hn. unfold mcx_map. destruct (controls_set cs j) eqn:E.
  - rewrite controls_set_flip, E by exact Hn. apply flip_bit_involutive.
  - now rewrite E.
Qed.

Lemma x_mask_lt (n : nat) (qs : list nat) :
  Forall (fun q => q < n) qs -> x_mask qs < 2 ^ n.
Proof.
  induction 1 as [|q qs Hq _ IH]; simpl.
  - pose proof (Nat.pow_nonzero 2 n). lia.
  - apply lxor_lt_pow2; auto using pow2_lt_pow2.
Qed.

Lemma apply_x_layer (n : nat) (qs : list nat) (psi : StateVector) :
  List.length psi = 2 ^ n ->
  Forall (fun q => q < n) qs ->
  apply_gates (map PauliX qs) psi = permute (fun j => Nat.lxor j (x_mask qs)) psi.
Proof.
  intros Hlen Hqs. revert psi Hlen.
  induction Hqs as [|q qs Hq Hqs IH]; intros psi Hlen.
  - simpl. symmetry. apply permute_id. intros j _. apply Nat.lxor_0_r.
  - change (apply_gates (map PauliX (q :: qs)) psi)
      with (apply_gates (map PauliX qs) (apply_x q psi)).
    rewrite IH by (unfold apply_x; rewrite tabulate_length; exact Hlen).
    change (apply_x q psi) with (permute (flip_bit q) psi).
    rewrite permute_permute.
    + apply permute_ext. intros j _. unfold flip_bit, x_mask.
      cbn [fold_right]. fold (x_mask qs).
      now rewrite (Nat.lxor_comm (2 ^ q)), Nat.lxor_assoc.
    + intros j Hj. rewrite Hlen in *.
      apply lxor_lt_pow2; [exact Hj | now apply x_mask_lt].
Qed.

Lemma x_layer_twice (n : nat) (qs : list nat) (psi : StateVector) :
  List.length psi = 2 ^ n ->
  Forall (fun q => q < n) qs ->
  apply_gates (map PauliX qs) (apply_gates (map PauliX qs) psi) = psi.
Proof.
  intros Hlen Hqs.
  rewrite (apply_x_layer (n:=n) _ Hlen Hqs).
  rewrite (apply_x_layer (n:=n)); [| now rewrite permute_length | exact Hqs].
  rewrite permute_permute.
  - apply permute_id. intros j _.
    now rewrite Nat.lxor_assoc, Nat.lxor_nilpotent, Nat.lxor_0_r.
  - intros j Hj. rewrite Hlen in *.
    apply lxor_lt_pow2; [exact Hj | now apply x_mask_lt].
Qed.

Lemma mcx_twice (n : nat) (cs : list nat) (t : nat) (psi : StateVector) :
  List.length psi = 2 ^ n -> t < n -> ~ In t cs ->
  apply_mcx cs t (apply_mcx cs t psi) = psi.
Proof.
  intros Hlen Ht Hn. rewrite !apply_mcx_permute, permute_permute.
  - apply permute_id. intros j _. now apply mcx_map_involutive.
  - intros j Hj. rewrite Hlen in *. now apply mcx_map_lt.
Qed.

End GateAlgebra.

(* ------------------------------------------------------------------ *)
(** ** The oracle circuit *)

Lemma int_of_char_bit (c : ascii) : is_bit c = true -> int_of_char c = Ok (bit_value c).
Proof.
  unfold is_bit. rewrite orb_true_iff, !Ascii.eqb_eq. intros [-> | ->]; reflexivity.
Qed.

Lemma mapM_int_of_char_bits (l : list ascii) :
  forallb is_bit l = true -> mapM int_of_char l = Ok (map bit_value l).
Proof.
  induction l as [|c l IH]; simpl; [reflexivity |].
  rewrite andb_true_iff. intros [Hc Hl].
  rewrite (int_of_char_bit _ Hc). simpl. rewrite (IH Hl). reflexivity.
Qed.

Lemma list_ascii_of_string_append (s t : string) :
  list_ascii_of_string (s ++ t) = (list_ascii_of_string s ++ list_ascii_of_string t)%list.
Proof. induction s as [|c s IH]; simpl; [reflexivity | now rewrite IH]. Qed.

Lemma list_ascii_of_string_length (s : string) :
  List.length (list_ascii_of_string s) = String.length s.
Proof. induction s as [|c s IH]; simpl; congruence. Qed.

Lemma bitstring_zeros (n : nat) : bitstring (zeros n) = true.
Proof. unfold bitstring. induction n as [|n IH]; simpl; auto. Qed.

Lemma bitstring_append (s t : string) :
  bitstring s = true -> bitstring t = true -> bitstring (s ++ t) = true.
Proof.
  unfold bitstring. rewrite list_ascii_of_string_append, forallb_app.
  intros -> ->. reflexivity.
Qed.

Lemma append_empty_r (s : string) : (s ++ EmptyString)%string = s.
Proof. induction s as [|c s IH]; simpl; congruence. Qed.

Lemma zfill_bitstring (k : nat) (s : string) :
  bitstring s = true -> zfill k s = zeros (k - String.length s) ++ s.
Proof.
  intro Hb. unfold zfill. destruct (k <=? String.length s) eqn:E.
  - apply Nat.leb_le in E. replace (k - String.length s) with 0 by lia. reflexivity.
  - destruct s as [|c rest]; [now rewrite append_empty_r |].
    unfold bitstring in Hb. simpl in Hb. apply andb_true_iff in Hb as [Hc _].
    unfold is_bit in Hc. rewrite orb_true_iff, !Ascii.eqb_eq in Hc.
    destruct Hc as [-> | ->]; reflexivity.
Qed.

Lemma reg_bits_search (k : nat) : reg_bits (mkReg 0 k) = seq 0 k.
Proof. unfold reg_bits. simpl. apply map_id. Qed.

Lemma zero_positions_In (pattern : list nat) (idx q : nat) :
  In q (zero_positions pattern idx)
  <-> idx <= q /\ nth_error pattern (q - idx) = Some 0.
Proof.
  revert idx. induction pattern as [|bit rest IH]; intro idx; simpl.
  - split; [tauto |]. intros [_ Hn]. destruct (q - idx); discriminate.
  - assert (Hstep : forall b, idx <= q ->
              (nth_error (b :: rest) (q - idx) = Some 0
               <-> (q = idx /\ b = 0) \/ (S idx <= q /\ nth_error rest (q - S idx) = Some 0))).
    { intros b Hle. destruct (Nat.eq_dec q idx) as [-> | Hne].
      - rewrite Nat.sub_diag. simpl. split.
        + intro E. inversion E. left. auto.
        + intros [[_ ->] | [Hlt _]]; [reflexivity | lia].
      - replace (q - idx) with (S (q - S idx)) by lia. simpl. split.
        + intro E. right. split; [lia | exact E].
        + intros [[-> _] | [_ E]]; [congruence | exact E]. }
    destruct (bit =? 0) eqn:Eb.
    + apply Nat.eqb_eq in Eb. subst bit. simpl. rewrite IH. split.
      * intros [<- | [Hle Hn]].
        -- split; [lia |]. apply Hstep; [lia |]. left. auto.
        -- split; [lia |]. apply Hstep; [lia |]. right. auto.
      * intros [Hle Hn]. apply Hstep in Hn; [| exact Hle].
        destruct Hn as [[-> _] | Hr]; [now left | now right].
    + apply Nat.eqb_neq in Eb. rewrite IH. split.
      * intros [Hle Hn]. split; [lia |]. apply Hstep; [lia |]. right. auto.
      * intros [Hle Hn]. apply Hstep in Hn; [| exact Hle].
        destruct Hn as [[_ E0] | Hr]; [contradiction | exact Hr].
Qed.

Lemma zero_positions_bound (pattern : list nat) (q : nat) :
  In q (zero_positions pattern 0) -> q < List.length pattern.
Proof.
  rewrite zero_positions_In. intros [_ Hn].
  apply nth_error_Some. rewrite Nat.sub_0_r in Hn. congruence.
Qed.

Section OracleConstruction.
Variable Ang : Type.

Lemma flip_zero_bits_spec (k : nat) (pattern : list nat) (idx : nat) (qc : Circuit Ang) :
  num_qubits qc = k + 1 ->
  flip_zero_bits (mkReg 0 k) pattern idx qc
  = if forallb (fun q => (q <? k)%nat) (zero_positions pattern idx)
    then Ok (mkCircuit (num_qubits qc) (num_clbits qc)
                       (data qc ++ map PauliX (zero_positions pattern idx))
                       (measures qc))
    else Raise IndexError.
Proof.
  revert idx qc. induction pattern as [|bit rest IH]; intros idx qc Hn; simpl.
  - rewrite app_nil_r. now destruct qc.
  - destruct (bit =? 0) eqn:Eb.
    + unfold reg_get. simpl. destruct (idx <? k) eqn:Ei; simpl; [| reflexivity].
      assert (Hlt : (idx <? k + 1) = true)
        by (apply Nat.ltb_lt; apply Nat.ltb_lt in Ei; lia).
      unfold qc_x, broadcast, broadcast_each, qc_append, op_ok. simpl. rewrite Hn, Hlt. simpl.
      rewrite IH by reflexivity. simpl.
      now rewrite <- app_assoc.
    + simpl. now apply IH.
Qed.

Lemma distinct_NoDup (l : list nat) : NoDup l -> distinct l = true.
Proof.
  induction 1 as [|x l Hx _ IH]; simpl; [reflexivity |].
  rewrite IH, andb_true_r. apply negb_true_iff.
  destruct (existsb (Nat.eqb x) l) eqn:E; [| reflexivity].
  apply existsb_exists in E as [y [Hy Exy]]. apply Nat.eqb_eq in Exy. subst.
  contradiction.
Qed.

Lemma mcx_all_ok (k : nat) :
  op_ok (Ang:=Ang) (k + 1) (MultiControlledX (seq 0 k) k) = true.
Proof.
  unfold op_ok. simpl. replace (seq 0 k ++ [k])%list with (seq 0 (S k))
    by (rewrite seq_S; reflexivity).
  apply andb_true_iff. split.
  - apply forallb_forall. intros q Hq. apply in_seq in Hq. apply Nat.ltb_lt. lia.
  - apply distinct_NoDup, seq_NoDup.
Qed.

(** What [create_oracle] does with a pattern of ['0'] and ['1']: the pattern
    is zero-filled to [k] characters; the construction stops with
    [IndexError] at the first 0 standing at a position the search register
    does not have, and otherwise yields the oracle of the filled pattern. *)
Lemma create_oracle_spec (k : nat) (s : string) :
  bitstring s = true ->
  let pattern := pattern_bits (zeros (k - String.length s) ++ s) in
  create_oracle Ang k s
  = if forallb (fun q => (q <? k)%nat) (zero_positions pattern 0)
    then Ok (mkCircuit (k + 1) 0 (oracle_data Ang k pattern) [])
    else Raise IndexError.
Proof.
  intros Hb pattern. unfold create_oracle.
  rewrite (zfill_bitstring k s Hb).
  rewrite mapM_int_of_char_bits
    by (apply bitstring_append; [apply bitstring_zeros | exact Hb]).
  simpl. fold (pattern_bits (zeros (k - String.length s) ++ s)). fold pattern.
  rewrite flip_zero_bits_spec by reflexivity.
  destruct (forallb (fun q => (q <? k)%nat) (zero_positions pattern 0)) eqn:Ez;
    [| reflexivity].
  simpl. unfold qc_mcx, qc_append. simpl. rewrite reg_bits_search.
  rewrite Nat.add_0_r, mcx_all_ok. simpl.
  rewrite flip_zero_bits_spec by reflexivity. rewrite Ez. simpl.
  unfold oracle_data. now rewrite <- app_assoc.
Qed.

End OracleConstruction.

Lemma pattern_bits_length (s : string) : List.length (pattern_bits s) = String.length s.
Proof. unfold pattern_bits. now rewrite length_map, list_ascii_of_string_length. Qed.

Lemma zero_positions_in_range (k : nat) (pattern : list nat) :
  List.length pattern <= k ->
  forallb (fun q => q <? k) (zero_positions pattern 0) = true.
Proof.
  intro Hlen. apply forallb_forall. intros q Hq.
  apply zero_positions_bound in Hq. apply Nat.ltb_lt. lia.
Qed.

Lemma forallb_false_witness (f : nat -> bool) (l : list nat) :
  forallb f l = false -> exists x, In x l /\ f x = false.
Proof.
  induction l as [|x l IH]; simpl; [discriminate |].
  destruct (f x) eqn:E; simpl.
  - intro Hf. destruct (IH Hf) as [y [Hy Ey]]. exists y. auto.
  - intros _. exists x. auto.
Qed.

Lemma zero_positions_out_of_range (k : nat) (pattern : list nat) :
  forallb (fun q => q <? k) (zero_positions pattern 0) = false
  <-> exists idx, k <= idx /\ nth_error pattern idx = Some 0.
Proof.
  split.
  - intro Hf.
    destruct (forallb_false_witness _ _ Hf) as [q [Hq Hlt]].
    apply zero_positions_In in Hq as [_ Hn]. rewrite Nat.sub_0_r in Hn.
    apply Nat.ltb_ge in Hlt. exists q. auto.
  - intros [idx [Hle Hn]].
    destruct (forallb _ (zero_positions pattern 0)) eqn:E; [| reflexivity].
    rewrite forallb_forall in E.
    assert (Hin : In idx (zero_positions pattern 0)).
    { apply zero_positions_In. rewrite Nat.sub_0_r. split; [lia | exact Hn]. }
    apply E in Hin. apply Nat.ltb_lt in Hin. lia.
Qed.

(** C4.  For every bit pattern of length [k] and every state of the [k]
    search qubits plus ancilla, [create_oracle] builds a circuit, and
    applying that circuit twice in succession gives back the starting state
    itself (all amplitudes, with global phase 1).  This holds over every
    amplitude type. *)
Theorem oracle_twice_restores_state :
  forall (A Ang : Type) (Amp : Amplitude A Ang)
         (k : nat) (target_pattern : string) (psi : list A),
    String.length target_pattern = k ->
    bitstring target_pattern = true ->
    List.length psi = 2 ^ (k + 1) ->
    exists oracle : Circuit Ang,
      create_oracle Ang k target_pattern = Ok oracle
      /\ apply_gates (data oracle ++ data oracle) psi = psi.
Proof.
  intros A Ang Amp k s psi Hk Hb Hlen.
  pose proof (create_oracle_spec Ang k s Hb) as Hspec. simpl in Hspec.
  rewrite Hk, Nat.sub_diag in Hspec. simpl in Hspec.
  assert (Hrange : forallb (fun q => q <? k) (zero_positions (pattern_bits s) 0) = true)
    by (apply zero_positions_in_range; rewrite pattern_bits_length; lia).
  rewrite Hrange in Hspec.
  eexists. split; [exact Hspec |]. simpl.
  set (zs := zero_positions (pattern_bits s) 0).
  assert (Hzs : Forall (fun q => q < k + 1) zs).
  { apply Forall_forall. intros q Hq. apply zero_positions_bound in Hq.
    rewrite pattern_bits_length in Hq. lia. }
  assert (Hnotin : ~ In k (seq 0 k)) by (rewrite in_seq; lia).
  unfold oracle_data. fold zs.
  rewrite !apply_gates_app.
  change (apply_gates [MultiControlledX (seq 0 k) k]) with (apply_mcx (seq 0 k) k).
  rewrite (x_layer_twice (n:=k + 1));
    [| unfold apply_mcx; rewrite tabulate_length, apply_gates_length; exact Hlen
     | exact Hzs].
  rewrite (mcx_twice (n:=k + 1));
    [| rewrite apply_gates_length; exact Hlen | lia | exact Hnotin].
  apply (x_layer_twice (n:=k + 1)); assumption.
Qed.

Lemma oracle_twice_restores_state_witness :
  exists oracle : Circuit Empty_set,
    create_oracle Empty_set 2 "10" = Ok oracle
    /\ apply_gates (data oracle ++ data oracle) (init_state (A:=Q2) 3) = init_state 3.
Proof.
  apply (@oracle_twice_restores_state Q2 Empty_set Q2_amplitude 2 "10" (init_state 3));
    reflexivity.
Defined.

(** C8, as stated, fails: on four search qubits the one-character pattern
    ["1"] is accepted and an oracle is built for it. *)
Lemma create_oracle_accepts_short_pattern :
  String.length "1" <> 4
  /\ create_oracle R 4 "1"
     = Ok (mkCircuit 5 0
             [PauliX 0; PauliX 1; PauliX 2; MultiControlledX [0; 1; 2; 3] 4;
              PauliX 0; PauliX 1; PauliX 2] []).
Proof. split; [discriminate | reflexivity]. Qed.

(** C8, amended.  [create_oracle] does not compare the pattern length with
    the number of search qubits.  A bit pattern no longer than the search
    register is zero-filled on the left to [k] characters and the oracle of
    the filled pattern is built.  A longer bit pattern raises [IndexError]
    exactly when it holds a 0 at a position the register does not have
    (index [k] or above); otherwise the oracle is built from its first [k]
    positions. *)
Theorem create_oracle_pattern_length :
  forall (Ang : Type) (k : nat) (target_pattern : string),
    bitstring target_pattern = true ->
    (String.length target_pattern <= k ->
       create_oracle Ang k target_pattern
       = Ok (mkCircuit (k + 1) 0
               (oracle_data Ang k
                  (pattern_bits (zeros (k - String.length target_pattern) ++ target_pattern)))
               []))
    /\ (k < String.length target_pattern ->
          ((exists idx, k <= idx /\ nth_error (pattern_bits target_pattern) idx = Some 0)
           /\ create_oracle Ang k target_pattern = Raise IndexError)
          \/ ((forall idx, k <= idx -> nth_error (pattern_bits target_pattern) idx <> Some 0)
              /\ create_oracle Ang k target_pattern
                 = Ok (mkCircuit (k + 1) 0
                         (oracle_data Ang k (pattern_bits target_pattern)) []))).
Proof.
  intros Ang k s Hb.
  pose proof (create_oracle_spec Ang k s Hb) as Hspec. simpl in Hspec. split.
  - intro Hlen. rewrite Hspec, zero_positions_in_range; [reflexivity |].
    rewrite pattern_bits_length, length_append, length_zeros. lia.
  - intro Hlen. replace (k - String.length s) with 0 in Hspec by lia.
    simpl in Hspec.
    destruct (forallb (fun q => q <? k) (zero_positions (pattern_bits s) 0)) eqn:E.
    + right. split; [| exact Hspec].
      intros idx Hle Hn.
      assert (Hf : forallb (fun q => q <? k) (zero_positions (pattern_bits s) 0) = false)
        by (apply zero_positions_out_of_range; eauto).
      congruence.
    + left. split; [| exact Hspec]. now apply zero_positions_out_of_range.
Qed.

Lemma create_oracle_pattern_length_witness :
  (String.length "1" <= 4 ->
     create_oracle R 4 "1"
     = Ok (mkCircuit 5 0 (oracle_data R 4 (pattern_bits (zeros (4 - String.length "1") ++ "1"))) []))
  /\ (4 < String.length "1" ->
        ((exists idx, 4 <= idx /\ nth_error (pattern_bits "1") idx = Some 0)
         /\ create_oracle R 4 "1" = Raise IndexError)
        \/ ((forall idx, 4 <= idx -> nth_error (pattern_bits "1") idx <> Some 0)
            /\ create_oracle R 4 "1"
               = Ok (mkCircuit 5 0 (oracle_data R 4 (pattern_bits "1")) []))).
Proof. apply (@create_oracle_pattern_length R 4 "1"). reflexivity. Defined.

(* ------------------------------------------------------------------ *)
(** ** Sums of real numbers over basis indices *)

Lemma Rsum_perm (l l' : list R) : Permutation l l' -> Rsum l = Rsum l'.
Proof.
  induction 1 as [| x l l' _ IH | x y l | l l' l'' _ IH1 _ IH2]; simpl.
  - reflexivity.
  - now rewrite IH.
  - lra.
  - congruence.
Qed.

Lemma Rsum_map_ext (f g : nat -> R) (l : list nat) :
  (forall j, In j l -> f j = g j) -> Rsum (map f l) = Rsum (map g l).
Proof. intro Hfg. f_equal. now apply map_ext_in. Qed.

Lemma Rsum_map_plus (f g : nat -> R) (l : list nat) :
  Rsum (map (fun j => f j + g j)%R l) = (Rsum (map f l) + Rsum (map g l))%R.
Proof. induction l as [|x l IH]; simpl; [lra | rewrite IH; lra]. Qed.

Lemma Rsum_map_zero (f : nat -> R) (l : list nat) :
  (forall j, In j l -> f j = 0%R) -> Rsum (map f l) = 0%R.
Proof.
  induction l as [|x l IH]; simpl; intro Hz; [reflexivity |].
  rewrite Hz by now left. rewrite IH by (intros; apply Hz; now right). lra.
Qed.

Lemma involution_seq_perm (N : nat) (s : nat -> nat) :
  (forall j, j < N -> s j < N) ->
  (forall j, j < N -> s (s j) = j) ->
  Permutation (map s (seq 0 N)) (seq 0 N).
Proof.
  intros Hlt Hinv. apply NoDup_Permutation.
  - apply NoDup_map_NoDup_ForallPairs; [| apply seq_NoDup].
    intros a b Ha Hb E. apply in_seq in Ha, Hb.
    rewrite <- (Hinv a), <- (Hinv b) by lia. now rewrite E.
  - apply seq_NoDup.
  - intro x. rewrite in_map_iff. split.
    + intros [j [<- Hj]]. apply in_seq in Hj. apply in_seq. specialize (Hlt j). lia.
    + intro Hx. apply in_seq in Hx. exists (s x). split; [apply Hinv; lia |].
      apply in_seq. specialize (Hlt x). lia.
Qed.

Lemma Rsum_reindex (N : nat) (s : nat -> nat) (g : nat -> R) :
  (forall j, j < N -> s j < N) ->
  (forall j, j < N -> s (s j) = j) ->
  Rsum (map (fun j => g (s j)) (seq 0 N)) = Rsum (map g (seq 0 N)).
Proof.
  intros Hlt Hinv. rewrite <- (map_map s g).
  apply Rsum_perm, Permutation_map, involution_seq_perm; assumption.
Qed.

(* ------------------------------------------------------------------ *)
(** ** Normalisation of complex state vectors *)

Lemma total_probability_C (psi : list C) :
  total_probability psi = (total_R psi, 0%R).
Proof.
  unfold total_probability, total_R. induction psi as [|z psi IH].
  - reflexivity.
  - change (Cadd (Cnorm2 z, 0%R) (Asum (map Anorm2 psi))
            = ((Cnorm2 z + Rsum (map Cnorm2 psi))%R, 0%R)).
    rewrite IH. unfold Cadd. simpl. f_equal. lra.
Qed.

Lemma total_R_tabulate (N : nat) (f : nat -> C) :
  total_R (tabulate N f) = Rsum (map (fun j => Cnorm2 (f j)) (seq 0 N)).
Proof. unfold total_R, tabulate. now rewrite map_map. Qed.

Lemma total_R_amp (psi : list C) :
  total_R psi = Rsum (map (fun j => Cnorm2 (amp psi j)) (seq 0 (List.length psi))).
Proof. rewrite <- total_R_tabulate. now rewrite tabulate_amp. Qed.

Lemma total_R_init_state (n : nat) : total_R (init_state (A:=C) n) = 1%R.
Proof.
  unfold init_state. rewrite total_R_tabulate.
  assert (Hpos : 2 ^ n = S (2 ^ n - 1)) by (pose proof (Nat.pow_nonzero 2 n); lia).
  rewrite Hpos. simpl seq. simpl map. simpl Rsum.
  rewrite Rsum_map_zero.
  - unfold Cnorm2. simpl. lra.
  - intros j Hj. apply in_seq in Hj.
    destruct j as [|j]; [lia |]. unfold Cnorm2. simpl. lra.
Qed.

Lemma total_R_permute (N : nat) (s : nat -> nat) (psi : list C) :
  List.length psi = N ->
  (forall j, j < N -> s j < N) ->
  (forall j, j < N -> s (s j) = j) ->
  total_R (permute s psi) = total_R psi.
Proof.
  intros Hlen Hlt Hinv. unfold permute. rewrite total_R_tabulate, (total_R_amp psi), Hlen.
  apply (@Rsum_reindex N s (fun j => Cnorm2 (amp psi j)) Hlt Hinv).
Qed.

Lemma Cnorm2_opp (z : C) : Cnorm2 (Copp z) = Cnorm2 z.
Proof. unfold Cnorm2, Copp. simpl. ring. Qed.

Lemma Cnorm2_rz (theta : R) (b : bool) (z : C) :
  Cnorm2 (Cmul (rz_phase theta b) z) = Cnorm2 z.
Proof.
  pose proof (sin2_cos2 (theta / 2)) as Hsc. unfold Rsqr in Hsc.
  unfold Cnorm2, Cmul, rz_phase. destruct b; simpl;
    set (c := cos (theta / 2)) in *; set (s := sin (theta / 2)) in *;
    destruct z as [x y]; simpl.
  - transitivity ((s * s + c * c) * (x * x + y * y))%R; [ring | rewrite Hsc; ring].
  - transitivity ((s * s + c * c) * (x * x + y * y))%R; [ring | rewrite Hsc; ring].
Qed.

Lemma rsqrt2_sqr : (/ sqrt 2 * / sqrt 2 = / 2)%R.
Proof.
  rewrite <- Rinv_mult. f_equal. apply sqrt_sqrt. lra.
Qed.

Lemma Cnorm2_hadamard_pair (a b : C) :
  (Cnorm2 (Cscale (/ sqrt 2) (Cadd a b)) + Cnorm2 (Cscale (/ sqrt 2) (Csub a b))
   = Cnorm2 a + Cnorm2 b)%R.
Proof.
  pose proof rsqrt2_sqr as Hr. unfold Cnorm2, Cscale, Cadd, Csub.
  destruct a as [a1 a2], b as [b1 b2]. simpl. set (r := (/ sqrt 2)%R) in *.
  transitivity ((r * r) * (2 * (a1 * a1 + a2 * a2 + b1 * b1 + b2 * b2)))%R;
    [ring | rewrite Hr; field].
Qed.

Lemma total_R_apply_x (n i : nat) (psi : list C) :
  List.length psi = 2 ^ n -> i < n -> total_R (apply_x i psi) = total_R psi.
Proof.
  intros Hlen Hi. change (apply_x i psi) with (permute (flip_bit i) psi).
  apply (@total_R_permute (2 ^ n)); [exact Hlen | |].
  - intros j Hj. now apply flip_bit_lt.
  - intros j _. apply flip_bit_involutive.
Qed.

Lemma total_R_apply_mcx (n : nat) (cs : list nat) (t : nat) (psi : list C) :
  List.length psi = 2 ^ n -> t < n -> ~ In t cs ->
  total_R (apply_mcx cs t psi) = total_R psi.
Proof.
  intros Hlen Ht Hn. rewrite apply_mcx_permute.
  apply (@total_R_permute (2 ^ n)); [exact Hlen | |].
  - intros j Hj. now apply mcx_map_lt.
  - intros j _. now apply mcx_map_involutive.
Qed.

Lemma total_R_apply_z (i : nat) (psi : list C) :
  total_R (apply_z i psi) = total_R psi.
Proof.
  unfold apply_z. rewrite total_R_tabulate, (total_R_amp psi).
  apply Rsum_map_ext. intros j _.
  destruct (Nat.testbit j i); [apply Cnorm2_opp | reflexivity].
Qed.

Lemma total_R_apply_rz (theta : R) (i : nat) (psi : list C) :
  total_R (apply_rz theta i psi) = total_R psi.
Proof.
  unfold apply_rz. rewrite total_R_tabulate, (total_R_amp psi).
  apply Rsum_map_ext. intros j _. apply Cnorm2_rz.
Qed.

Lemma total_R_apply_h (n i : nat) (psi : list C) :
  List.length psi = 2 ^ n -> i < n -> total_R (apply_h i psi) = total_R psi.
Proof.
  intros Hlen Hi.
  set (f := fun j =>
    if Nat.testbit j i
    then Arsqrt2 (Asub (amp psi (flip_bit i j)) (amp psi j))
    else Arsqrt2 (Aadd (amp psi j) (amp psi (flip_bit i j)))).
  set (g := fun j => Cnorm2 (f j)).
  set (p := fun j => Cnorm2 (amp psi j)).
  assert (Hlt : forall j, j < 2 ^ n -> flip_bit i j < 2 ^ n)
    by (intros; now apply flip_bit_lt).
  assert (Hinv : forall j, j < 2 ^ n -> flip_bit i (flip_bit i j) = j)
    by (intros; apply flip_bit_involutive).
  assert (Hpair : forall j, (g j + g (flip_bit i j) = p j + p (flip_bit i j))%R).
  { intro j. unfold g, f, p.
    rewrite flip_bit_testbit_same, flip_bit_involutive.
    destruct (Nat.testbit j i); simpl negb; cbv iota.
    - pose proof (Cnorm2_hadamard_pair (amp psi (flip_bit i j)) (amp psi j)) as Hp.
      simpl. simpl in Hp. lra.
    - pose proof (Cnorm2_hadamard_pair (amp psi j) (amp psi (flip_bit i j))) as Hp.
      simpl. simpl in Hp. lra. }
  assert (Hg : total_R (apply_h i psi) = Rsum (map g (seq 0 (2 ^ n)))).
  { unfold apply_h. rewrite total_R_tabulate, Hlen. reflexivity. }
  assert (Hp : total_R psi = Rsum (map p (seq 0 (2 ^ n)))).
  { rewrite (total_R_amp psi), Hlen. reflexivity. }
  rewrite Hg, Hp.
  pose proof (@Rsum_reindex _ _ g Hlt Hinv) as Hgs.
  pose proof (@Rsum_reindex _ _ p Hlt Hinv) as Hps.
  pose proof (Rsum_map_plus g (fun j => g (flip_bit i j)) (seq 0 (2 ^ n))) as Hgp.
  pose proof (Rsum_map_plus p (fun j => p (flip_bit i j)) (seq 0 (2 ^ n))) as Hpp.
  rewrite (Rsum_map_ext _ (fun j => (p j + p (flip_bit i j))%R)) in Hgp
    by (intros j _; apply Hpair).
  lra.
Qed.

(** Every well-formed instruction preserves the total probability. *)
Lemma total_R_apply_gate (n : nat) (op : Operation R) (psi : list C) :
  op_ok n op = true -> List.length psi = 2 ^ n ->
  total_R (apply_gate op psi) = total_R psi.
Proof.
  unfold op_ok. rewrite andb_true_iff, forallb_forall. intros [Hlt Hd] Hlen.
  destruct op as [q | q | q | c t | cs t | theta q |]; simpl in *.
  - apply (total_R_apply_h (n:=n)); [exact Hlen |]. apply Nat.ltb_lt, Hlt. now left.
  - apply (total_R_apply_x (n:=n)); [exact Hlen |]. apply Nat.ltb_lt, Hlt. now left.
  - apply total_R_apply_z.
  - rewrite apply_cx_mcx. apply (total_R_apply_mcx (n:=n)); [exact Hlen | |].
    + apply Nat.ltb_lt, Hlt. right. now left.
    + apply (distinct_app_last [c] t). exact Hd.
  - apply (total_R_apply_mcx (n:=n)); [exact Hlen | |].
    + apply Nat.ltb_lt, Hlt, in_or_app. right. now left.
    + now apply distinct_app_last.
  - apply total_R_apply_rz.
  - reflexivity.
Qed.

Lemma total_R_apply_gates (n : nat) (ops : list (Operation R)) (psi : list C) :
  forallb (op_ok n) ops = true -> List.length psi = 2 ^ n ->
  total_R (apply_gates ops psi) = total_R psi.
Proof.
  revert psi. induction ops as [|op ops IH]; intros psi Hok Hlen; [reflexivity |].
  simpl in Hok. apply andb_true_iff in Hok as [Hop Hops].
  change (apply_gates (op :: ops) psi) with (apply_gates ops (apply_gate op psi)).
  rewrite IH; [now apply total_R_apply_gate with (n := n) | exact Hops |].
  now rewrite apply_gate_length.
Qed.

(** A well-formed circuit simulates to a normalised state, and so does
    every prefix of it. *)
Lemma simulate_normalized :
  forall c : Circuit R,
    circuit_ok c = true ->
    exists psi : list C,
      simulate c = Ok psi
      /\ total_probability psi = Aone
      /\ (forall applied remaining : list (Operation R),
            data c = (applied ++ remaining)%list ->
            total_probability (apply_gates applied (init_state (num_qubits c))) = Aone)
      /\ (forall (op : Operation R) (phi : list C),
            op_ok (num_qubits c) op = true ->
            List.length phi = 2 ^ num_qubits c ->
            total_probability (apply_gate op phi) = total_probability phi).
Proof.
  intros c Hok. unfold simulate. rewrite Hok. eexists. split; [reflexivity |].
  unfold circuit_ok in Hok. apply andb_true_iff in Hok as [Hops _].
  split.
  - rewrite total_probability_C, total_R_apply_gates with (n := num_qubits c);
      [now rewrite total_R_init_state | exact Hops | apply init_state_length].
  - split.
    + intros applied remaining Hsplit. rewrite Hsplit, forallb_app in Hops.
      apply andb_true_iff in Hops as [Happ _].
      rewrite total_probability_C, total_R_apply_gates with (n := num_qubits c);
        [now rewrite total_R_init_state | exact Happ | apply init_state_length].
    + intros op phi Hop Hlen. rewrite !total_probability_C. f_equal.
      now apply total_R_apply_gate with (n := num_qubits c).
Qed.

(** C2.  For every well-formed circuit the simulation succeeds, and the sum
    over all basis indices of the squared amplitude magnitudes is exactly 1
    (hence within any tolerance) in the final state and after every
    individual gate application, that is after each prefix of the
    instruction list; and each single instruction (Hadamard, PauliX,
    PauliZ, ControlledX, MultiControlledX, RotationZ, Barrier) leaves that
    sum unchanged on every state vector of the circuit's dimension. *)
Theorem normalization_invariant :
  forall c : Circuit R,
    circuit_ok c = true ->
    exists psi : list C,
      simulate c = Ok psi
      /\ total_probability psi = Aone
      /\ (forall applied remaining : list (Operation R),
            data c = (applied ++ remaining)%list ->
            total_probability (apply_gates applied (init_state (num_qubits c))) = Aone)
      /\ (forall (op : Operation R) (phi : list C),
            op_ok (num_qubits c) op = true ->
            List.length phi = 2 ^ num_qubits c ->
            total_probability (apply_gate op phi) = total_probability phi).
Proof. exact simulate_normalized. Qed.

(* ------------------------------------------------------------------ *)
(** ** Circuits built by the program are well formed *)

Lemma bind_Ok {X Y : Type} (m : result X) (k : X -> result Y) (y : Y) :
  bind m k = Ok y -> exists x, m = Ok x /\ k x = Ok y.
Proof. destruct m as [x | e]; simpl; [eauto | discriminate]. Qed.

Ltac bind_inv H :=
  let x := fresh "qc" in
  let Hx := fresh "Hstep" in
  apply bind_Ok in H; destruct H as [x [Hx H]].

Section BuilderInvariant.
Variable Ang : Type.

Lemma step_ok_refl (qc : Circuit Ang) : step_ok qc qc.
Proof. unfold step_ok. auto. Qed.

Lemma step_ok_trans (qc1 qc2 qc3 : Circuit Ang) :
  step_ok qc1 qc2 -> step_ok qc2 qc3 -> step_ok qc1 qc3.
Proof.
  unfold step_ok. intros [Hn1 [Hm1 [Hs1 Ho1]]] [Hn2 [Hm2 [Hs2 Ho2]]].
  repeat split; try congruence. auto.
Qed.

Lemma op_ok_mono (n n' : nat) (op : Operation Ang) :
  n <= n' -> op_ok n op = true -> op_ok n' op = true.
Proof.
  intros Hle. unfold op_ok. rewrite !andb_true_iff, !forallb_forall.
  intros [Hlt Hd]. split; [| exact Hd].
  intros q Hq. specialize (Hlt q Hq). apply Nat.ltb_lt in Hlt. apply Nat.ltb_lt. lia.
Qed.

Lemma qc_append_step (op : Operation Ang) (qc qc' : Circuit Ang) :
  qc_append op qc = Ok qc' -> step_ok qc qc'.
Proof.
  unfold qc_append. destruct (op_ok (num_qubits qc) op) eqn:E; [| discriminate].
  intro H. inversion H; subst qc'; clear H. unfold step_ok, ops_ok. simpl.
  repeat split. intro Hok. rewrite forallb_app, Hok. simpl. now rewrite E.
Qed.

Lemma broadcast_each_step (gate : nat -> Operation Ang) (qs : list nat)
      (qc qc' : Circuit Ang) :
  broadcast_each gate qs qc = Ok qc' -> step_ok qc qc'.
Proof.
  revert qc. induction qs as [|q qs IH]; intros qc H; simpl in H.
  - inversion H. apply step_ok_refl.
  - bind_inv H. eapply step_ok_trans; [eapply qc_append_step; eassumption | eauto].
Qed.

Lemma broadcast_step (gate : nat -> Operation Ang) (qs : list nat)
      (qc qc' : Circuit Ang) :
  broadcast gate qs qc = Ok qc' -> step_ok qc qc'.
Proof.
  unfold broadcast. destruct qs; [discriminate | apply broadcast_each_step].
Qed.

Lemma qc_compose_step (other qc qc' : Circuit Ang) :
  ops_ok other -> qc_compose other qc = Ok qc' -> step_ok qc qc'.
Proof.
  intro Hother. unfold qc_compose.
  destruct (num_qubits other <=? num_qubits qc) eqn:E; [| discriminate].
  apply Nat.leb_le in E. intro H. inversion H; subst qc'; clear H.
  unfold step_ok, ops_ok. simpl. repeat split.
  intro Hok. rewrite forallb_app, Hok. simpl.
  apply forallb_forall. intros op Hop. unfold ops_ok in Hother.
  rewrite forallb_forall in Hother. eapply op_ok_mono; eauto.
Qed.

Lemma flip_zero_bits_step (q : Register) (pattern : list nat) (idx : nat)
      (qc qc' : Circuit Ang) :
  flip_zero_bits q pattern idx qc = Ok qc' -> step_ok qc qc'.
Proof.
  revert idx qc. induction pattern as [|bit rest IH]; intros idx qc H; simpl in H.
  - inversion H. apply step_ok_refl.
  - bind_inv H. eapply step_ok_trans; [| eapply IH; eassumption].
    destruct (bit =? 0).
    + bind_inv Hstep. bind_inv Hstep. inversion Hstep; subst.
      eapply qc_append_step; eassumption.
    + inversion Hstep. apply step_ok_refl.
Qed.

Ltac steps_ok :=
  repeat match goal with
         | H : broadcast _ _ _ = Ok _ |- _ => apply broadcast_step in H
         | H : qc_append _ _ = Ok _ |- _ => apply qc_append_step in H
         | H : flip_zero_bits _ _ _ _ = Ok _ |- _ => apply flip_zero_bits_step in H
         end.

Ltac chain_steps :=
  repeat (eapply step_ok_trans; [eassumption |]);
  first [eassumption | apply step_ok_refl].

Lemma create_oracle_ok (k : nat) (s : string) (oracle : Circuit Ang) :
  create_oracle Ang k s = Ok oracle ->
  ops_ok oracle /\ num_qubits oracle = k + 1.
Proof.
  unfold create_oracle, qc_mcx. intro H.
  repeat bind_inv H. steps_ok.
  assert (Hs : step_ok (QuantumCircuit Ang (k + 1) 0) oracle) by chain_steps.
  destruct Hs as [Hn [_ [_ Hok]]].
  split; [apply Hok; reflexivity | exact Hn].
Qed.

Lemma grover_iteration_step (k : nat) (s : string) (qc qc' : Circuit Ang) :
  num_qubits qc = k + 1 ->
  grover_iteration k s qc = Ok qc' -> step_ok qc qc'.
Proof.
  intros Hn H. unfold grover_iteration, qc_h, qc_x, qc_mcx in H.
  bind_inv H. apply create_oracle_ok in Hstep as [Horacle _].
  bind_inv H. apply qc_compose_step in Hstep; [| exact Horacle].
  repeat bind_inv H. steps_ok. chain_steps.
Qed.

Lemma grover_loop_step (k : nat) (s : string) (iterations : nat) (qc qc' : Circuit Ang) :
  num_qubits qc = k + 1 ->
  grover_loop k s iterations qc = Ok qc' -> step_ok qc qc'.
Proof.
  revert qc. induction iterations as [|n IH]; intros qc Hn H; simpl in H.
  - inversion H. apply step_ok_refl.
  - bind_inv H. pose proof (@grover_iteration_step k s qc qc0 Hn Hstep) as Hs.
    eapply step_ok_trans; [exact Hs |]. apply IH; [| exact H].
    destruct Hs as [Hn' _]. congruence.
Qed.

Lemma map_snd_combine_same (l : list nat) : map snd (combine l l) = l.
Proof. induction l as [|x l IH]; simpl; congruence. Qed.

Lemma forallb_combine_same (f : nat * nat -> bool) (l : list nat) :
  (forall x, In x l -> f (x, x) = true) -> forallb f (combine l l) = true.
Proof.
  induction l as [|x l IH]; simpl; intro Hf; [reflexivity |].
  rewrite Hf by now left. simpl. apply IH. intros; apply Hf; now right.
Qed.

(** Every circuit [run_grover_manual] manages to construct is well formed:
    [k + 1] qubits, [k] classical bits, all instructions within range. *)
Lemma grover_circuit_ok (k : nat) (s : string) (iterations : nat) (qc : Circuit Ang) :
  grover_circuit Ang k s iterations = Ok qc ->
  circuit_ok qc = true /\ num_qubits qc = k + 1 /\ num_clbits qc = k.
Proof.
  unfold grover_circuit, qc_h, qc_x. intro H.
  bind_inv H. bind_inv H. bind_inv H. bind_inv H. steps_ok.
  assert (Hs : step_ok (QuantumCircuit Ang (k + 1) k) qc2) by chain_steps.
  assert (Hn2 : num_qubits qc2 = k + 1) by (destruct Hs as [Hn _]; exact Hn).
  apply grover_loop_step in Hstep2; [| exact Hn2].
  pose proof (step_ok_trans Hs Hstep2) as [Hn [Hm [Hms Hok]]].
  simpl in Hn, Hm, Hms. unfold qc_measure in H.
  destruct (_ && _ && _); [| discriminate].
  inversion H; subst qc; clear H. unfold circuit_ok. simpl.
  rewrite Hn, Hm, Hms. repeat split.
  apply andb_true_iff. split.
  - rewrite <- Hn. apply Hok. reflexivity.
  - unfold measures_ok. simpl. rewrite reg_bits_search, map_snd_combine_same.
    apply andb_true_iff. split; [| apply distinct_NoDup, seq_NoDup].
    apply forallb_combine_same. intros x Hx. apply in_seq in Hx. simpl.
    apply andb_true_iff. split; apply Nat.ltb_lt; lia.
Qed.

(** *** Construction succeeds on at least one search qubit *)

Lemma extend_extend (qc : Circuit Ang) (ops1 ops2 : list (Operation Ang)) :
  extend (extend qc ops1) ops2 = extend qc (ops1 ++ ops2).
Proof. unfold extend. simpl. now rewrite <- app_assoc. Qed.

Lemma qc_append_extend (op : Operation Ang) (qc : Circuit Ang) :
  op_ok (num_qubits qc) op = true -> qc_append op qc = Ok (extend qc [op]).
Proof. intro Hok. unfold qc_append. now rewrite Hok. Qed.

Lemma broadcast_each_extend (gate : nat -> Operation Ang) (qs : list nat) (qc : Circuit Ang) :
  (forall q, In q qs -> op_ok (num_qubits qc) (gate q) = true) ->
  broadcast_each gate qs qc = Ok (extend qc (map gate qs)).
Proof.
  revert qc. induction qs as [|q qs IH]; intros qc Hok; simpl.
  - unfold extend. rewrite app_nil_r. now destruct qc.
  - rewrite qc_append_extend by (apply Hok; now left). simpl.
    rewrite IH by (intros; apply Hok; now right). now rewrite extend_extend.
Qed.

Lemma broadcast_extend (gate : nat -> Operation Ang) (qs : list nat) (qc : Circuit Ang) :
  qs <> [] ->
  (forall q, In q qs -> op_ok (num_qubits qc) (gate q) = true) ->
  broadcast gate qs qc = Ok (extend qc (map gate qs)).
Proof.
  intros Hne Hok. unfold broadcast. destruct qs; [contradiction |].
  now apply broadcast_each_extend.
Qed.

Lemma op_ok_single (gate : nat -> Operation Ang) (n q : nat) :
  op_qubits (gate q) = [q] -> q < n -> op_ok n (gate q) = true.
Proof.
  intros Hq Hlt. unfold op_ok. rewrite Hq. simpl.
  apply Nat.ltb_lt in Hlt. now rewrite Hlt.
Qed.

Lemma seq_nonempty (k : nat) : 0 < k -> seq 0 k <> [].
Proof. destruct k; simpl; [lia | discriminate]. Qed.

Lemma mcx_diffuser_ok (k : nat) :
  0 < k ->
  op_ok (Ang:=Ang) (k + 1) (MultiControlledX (seq 0 (k - 1)) (k - 1)) = true.
Proof.
  intro Hk. unfold op_ok. simpl.
  replace (seq 0 (k - 1) ++ [k - 1])%list with (seq 0 k)
    by (replace k with (S (k - 1)) at 1 by lia; rewrite seq_S; reflexivity).
  apply andb_true_iff. split.
  - apply forallb_forall. intros q Hq. apply in_seq in Hq. apply Nat.ltb_lt. lia.
  - apply distinct_NoDup, seq_NoDup.
Qed.

Lemma grover_iteration_extend (k : nat) (s : string) (qc : Circuit Ang) :
  0 < k -> bitstring s = true -> String.length s <= k ->
  num_qubits qc = k + 1 ->
  grover_iteration k s qc
  = Ok (extend qc (oracle_data Ang k (pattern_bits (zeros (k - String.length s) ++ s))
                   ++ diffuser_data Ang k)).
Proof.
  intros Hk Hb Hlen Hn. unfold grover_iteration.
  pose proof (create_oracle_spec Ang k s Hb) as Hspec. simpl in Hspec.
  rewrite zero_positions_in_range in Hspec
    by (rewrite pattern_bits_length, length_append, length_zeros; lia).
  rewrite Hspec. cbn [bind].
  set (od := oracle_data Ang k (pattern_bits (zeros (k - String.length s) ++ s))).
  assert (Hcomp : qc_compose (mkCircuit (k + 1) 0 od []) qc = Ok (extend qc od)).
  { unfold qc_compose. simpl.
    replace (k + 1 <=? num_qubits qc) with true
      by (symmetry; apply Nat.leb_le; lia).
    reflexivity. }
  rewrite Hcomp. cbn [bind]. rewrite reg_bits_search.
  assert (Hall : forall (g : nat -> Operation Ang) (c : Circuit Ang),
            (forall q, op_qubits (g q) = [q]) -> num_qubits c = k + 1 ->
            broadcast g (seq 0 k) c = Ok (extend c (map g (seq 0 k)))).
  { intros g c Hg Hc. apply broadcast_extend; [now apply seq_nonempty |].
    intros q Hq. apply in_seq in Hq. apply op_ok_single; [apply Hg | lia]. }
  assert (Hone : forall (g : nat -> Operation Ang) (c : Circuit Ang),
            (forall q, op_qubits (g q) = [q]) -> num_qubits c = k + 1 ->
            broadcast g [k - 1] c = Ok (extend c [g (k - 1)])).
  { intros g c Hg Hc. apply broadcast_extend; [discriminate |].
    intros q [<- | []]. apply op_ok_single; [apply Hg | lia]. }
  assert (Hlast : reg_last (mkReg 0 k) = Ok (k - 1)).
  { unfold reg_last. simpl. destruct k; [lia | reflexivity]. }
  assert (Hinit : reg_init (mkReg 0 k) = seq 0 (k - 1)).
  { unfold reg_init. simpl. apply map_id. }
  unfold qc_h, qc_x, qc_mcx.
  rewrite Hall by (auto; simpl; lia). cbn [bind].
  rewrite Hall by (auto; simpl; lia). cbn [bind].
  rewrite Hlast. cbn [bind].
  rewrite Hone by (auto; simpl; lia). cbn [bind].
  rewrite Hinit, qc_append_extend
    by (simpl num_qubits; rewrite Hn; now apply mcx_diffuser_ok).
  cbn [bind].
  rewrite Hone by (auto; simpl; lia). cbn [bind].
  rewrite Hall by (auto; simpl; lia). cbn [bind].
  rewrite Hall by (auto; simpl; lia).
  f_equal. rewrite !extend_extend. unfold diffuser_data. reflexivity.
Qed.

Lemma grover_loop_extend (k : nat) (s : string) (iterations : nat) (qc : Circuit Ang) :
  0 < k -> bitstring s = true -> String.length s <= k ->
  num_qubits qc = k + 1 ->
  grover_loop k s iterations qc
  = Ok (extend qc (List.concat (repeat
          (oracle_data Ang k (pattern_bits (zeros (k - String.length s) ++ s))
           ++ diffuser_data Ang k)%list iterations))).
Proof.
  intros Hk Hb Hlen. revert qc.
  induction iterations as [|n IH]; intros qc Hn; simpl.
  - unfold extend. rewrite app_nil_r. now destruct qc.
  - rewrite grover_iteration_extend by assumption. cbn [bind].
    rewrite IH by exact Hn. now rewrite extend_extend.
Qed.

(** On at least one search qubit and for a bit pattern no longer than the
    search register, [run_grover_manual] constructs its circuit without
    error: the instructions are those of [grover_data], and search qubit
    [i] is measured into classical bit [i]. *)
Lemma grover_circuit_succeeds (k : nat) (s : string) (iterations : nat) :
  0 < k -> bitstring s = true -> String.length s <= k ->
  grover_circuit Ang k s iterations
  = Ok (mkCircuit (k + 1) k
          (grover_data Ang k (pattern_bits (zeros (k - String.length s) ++ s)) iterations)
          (combine (seq 0 k) (seq 0 k))).
Proof.
  intros Hk Hb Hlen. unfold grover_circuit, qc_x, qc_h.
  rewrite reg_bits_search.
  replace (reg_bits (mkReg k 1)) with [k]
    by (unfold reg_bits; simpl; now rewrite Nat.add_0_r).
  rewrite broadcast_extend;
    [| discriminate
     | intros q [<- | []]; apply op_ok_single; [reflexivity | simpl; lia]].
  cbn [bind].
  rewrite broadcast_extend;
    [| discriminate
     | intros q [<- | []]; apply op_ok_single; [reflexivity | simpl; lia]].
  cbn [bind].
  rewrite broadcast_extend;
    [| now apply seq_nonempty
     | intros q Hq; apply in_seq in Hq; apply op_ok_single; [reflexivity | simpl; lia]].
  cbn [bind].
  rewrite grover_loop_extend by (auto; reflexivity). cbn [bind].
  unfold qc_measure. simpl num_qubits. simpl num_clbits.
  rewrite Nat.eqb_refl.
  assert (Hq : forallb (fun q => q <? k + 1) (seq 0 k) = true).
  { apply forallb_forall. intros q Hq. apply in_seq in Hq. apply Nat.ltb_lt. lia. }
  assert (Hc : forallb (fun p => p <? k) (seq 0 k) = true).
  { apply forallb_forall. intros q Hq'. apply in_seq in Hq'. apply Nat.ltb_lt. lia. }
  rewrite Hq, Hc. simpl andb. cbv iota.
  f_equal.
Qed.

End BuilderInvariant.

(** The Grover circuits of the program keep the state normalised: on at
    least one search qubit and for a bit pattern that fits the register,
    [run_grover_manual] builds a circuit, its simulation succeeds, and the
    final state has total probability 1. *)
Lemma grover_circuit_normalized (k : nat) (s : string) (iterations : nat) :
  0 < k -> bitstring s = true -> String.length s <= k ->
  exists (qc : Circuit R) (psi : list C),
    grover_circuit R k s iterations = Ok qc
    /\ simulate qc = Ok psi
    /\ total_probability psi = Aone.
Proof.
  intros Hk Hb Hlen.
  pose proof (@grover_circuit_succeeds R k s iterations Hk Hb Hlen) as Hbuild.
  pose proof (@grover_circuit_ok R k s iterations _ Hbuild) as [Hok _].
  destruct (simulate_normalized _ Hok) as [psi [Hsim [Hnorm _]]].
  eauto.
Qed.

Lemma apply_rz_length (theta : R) (q : nat) (psi : list C) :
  List.length (apply_rz theta q psi) = List.length psi.
Proof. apply tabulate_length. Qed.

Lemma amp_apply_rz (theta : R) (q : nat) (psi : list C) (j : nat) :
  j < List.length psi ->
  amp (apply_rz theta q psi) j = Cmul (rz_phase theta (Nat.testbit j q)) (amp psi j).
Proof. intro Hj. unfold apply_rz. now rewrite amp_tabulate. Qed.

Lemma rz_phase_plus (theta1 theta2 : R) (b : bool) (z : C) :
  Cmul (rz_phase theta2 b) (Cmul (rz_phase theta1 b) z)
  = Cmul (rz_phase (theta1 + theta2) b) z.
Proof.
  assert (Hhalf : ((theta1 + theta2) / 2 = theta1 / 2 + theta2 / 2)%R) by lra.
  destruct z as [x y]. unfold Cmul, rz_phase. rewrite Hhalf, cos_plus, sin_plus.
  destruct b; simpl; f_equal; ring.
Qed.

Lemma rz_composition_aux (psi : list C) (q : nat) (theta1 theta2 : R) :
  apply_gates [RotationZ theta1 q; RotationZ theta2 q] psi
  = apply_rz (theta1 + theta2)%R q psi.
Proof.
  change (apply_rz theta2 q (apply_rz theta1 q psi) = apply_rz (theta1 + theta2)%R q psi).
  transitivity (tabulate (List.length psi) (fun j =>
    Cmul (rz_phase theta2 (Nat.testbit j q))
         (Cmul (rz_phase theta1 (Nat.testbit j q)) (amp psi j)))).
  - unfold apply_rz at 1. rewrite apply_rz_length.
    apply tabulate_ext. intros j Hj. now rewrite amp_apply_rz.
  - unfold apply_rz. apply tabulate_ext. intros j _. apply rz_phase_plus.
Qed.

(** C9.  For every state vector, every qubit index and all angles,
    RotationZ(theta1) followed by RotationZ(theta2) on the same qubit gives
    exactly the state that a single RotationZ(theta1 + theta2) gives. *)
Theorem rz_composition :
  forall (psi : list C) (q : nat) (theta1 theta2 : R),
    apply_gates [RotationZ theta1 q; RotationZ theta2 q] psi
    = apply_gate (RotationZ (theta1 + theta2)%R q) psi.
Proof. intros. apply rz_composition_aux. Qed.

(** The circuit of Lab 5. *)
Lemma multiple_rz_gates_circuit :
  multiple_rz_gates
  = Ok (mkCircuit 2 2
          [Hadamard 0; RotationZ (PI / 2)%R 0; RotationZ (PI / 3)%R 0; Hadamard 0]
          [(0, 0)]).
Proof. reflexivity. Qed.

Lemma normalization_invariant_witness :
  exists psi : list C,
    simulate (mkCircuit 2 2
                [Hadamard 0; RotationZ (PI / 2)%R 0; RotationZ (PI / 3)%R 0; Hadamard 0]
                [(0, 0)]) = Ok psi
    /\ total_probability psi = Aone
    /\ (forall applied remaining : list (Operation R),
          [Hadamard 0; RotationZ (PI / 2)%R 0; RotationZ (PI / 3)%R 0; Hadamard 0]
          = (applied ++ remaining)%list ->
          total_probability (apply_gates applied (init_state 2)) = Aone)
    /\ (forall (op : Operation R) (phi : list C),
          op_ok 2 op = true ->
          List.length phi = 2 ^ 2 ->
          total_probability (apply_gate op phi) = total_probability phi).
Proof.
  apply (normalization_invariant
           (mkCircuit 2 2
              [Hadamard 0; RotationZ (PI / 2)%R 0; RotationZ (PI / 3)%R 0; Hadamard 0]
              [(0, 0)])).
  reflexivity.
Defined.

(** The two rotations of Lab 5 act as one rotation by [5 PI / 6]. *)
Lemma multiple_rz_gates_single_rotation (psi : list C) :
  apply_gates [Hadamard 0; RotationZ (PI / 2)%R 0; RotationZ (PI / 3)%R 0; Hadamard 0] psi
  = apply_gates [Hadamard 0; RotationZ (5 * PI / 6)%R 0; Hadamard 0] psi.
Proof.
  change (apply_h 0 (apply_gates [RotationZ (PI / 2)%R 0; RotationZ (PI / 3)%R 0]
                                 (apply_h 0 psi))
          = apply_h 0 (apply_rz (5 * PI / 6)%R 0 (apply_h 0 psi))).
  rewrite rz_composition_aux. f_equal. f_equal. lra.
Qed.

(* ------------------------------------------------------------------ *)
(** ** The iteration count *)

Lemma PI_bounds : (3 < PI < 7 / 2)%R.
Proof.
  split.
  - pose proof PI2_3_2. lra.
  - pose proof (PI_ineq 1) as [_ Hup].
    unfold sum_f_R0, tg_alt, PI_tg in Hup. simpl in Hup.
    replace (1 + 1 + 1)%R with 3%R in Hup by lra.
    replace (1 + 1 + 1 + 1 + 1)%R with 5%R in Hup by lra.
    lra.
Qed.

(** [np_round] returns an integer nearest to its argument, and the even one
    of the two when the argument lies half-way. *)
Lemma np_round_nearest (x : R) :
  (Rabs (IZR (np_round x) - x) <= 1 / 2)%R
  /\ (Rabs (IZR (np_round x) - x) = 1 / 2 -> Z.even (np_round x) = true)%R.
Proof.
  pose proof (base_fp x) as [Hge Hlt].
  pose proof (Rplus_Int_part_frac_part x) as Hx.
  unfold np_round.
  set (f := Int_part x) in *. set (d := frac_part x) in *.
  destruct (Rlt_dec d (1 / 2)) as [Hd | Hd].
  - replace (IZR f - x)%R with (- d)%R by lra.
    rewrite Rabs_Ropp, Rabs_right by lra. split; lra.
  - destruct (Rlt_dec (1 / 2) d) as [Hd' | Hd'].
    + rewrite plus_IZR. replace (IZR f + 1 - x)%R with (1 - d)%R by lra.
      rewrite Rabs_right by lra. split; lra.
    + destruct (Z.even f) eqn:Ev.
      * replace (IZR f - x)%R with (- d)%R by lra.
        rewrite Rabs_Ropp, Rabs_right by lra. split; [lra | auto].
      * rewrite plus_IZR. replace (IZR f + 1 - x)%R with (1 - d)%R by lra.
        rewrite Rabs_right by lra. split; [lra |]. intros _.
        rewrite Z.even_add, Ev. reflexivity.
Qed.

Lemma np_round_PI : np_round PI = 3%Z.
Proof.
  pose proof PI_bounds as [Hlo Hhi].
  assert (Hf : Int_part PI = 3%Z) by (symmetry; apply Int_part_spec; lra).
  unfold np_round, frac_part. rewrite Hf.
  destruct (Rlt_dec (PI - 3) (1 / 2)) as [_ | Hn]; [reflexivity | lra].
Qed.

Lemma grover_iterations_4 : grover_iterations 4 = 3%Z.
Proof.
  unfold grover_iterations.
  replace (PI / 4 * sqrt (2 ^ 4))%R with PI; [apply np_round_PI |].
  replace (2 ^ 4)%R with (4 * 4)%R by (simpl; lra).
  rewrite sqrt_square by lra. lra.
Qed.

(** C5.  For fewer than 64 search qubits the iteration count is computed
    and is [pi/4 * sqrt (2^k)] rounded to the nearest integer (to the even
    one at a tie); for [k = 4] it is 3.  From 64 search qubits on the
    expression raises TypeError and no count is computed. *)
Theorem grover_iterations_rounds :
  (forall k : nat, k < 64 ->
     exists n : Z,
       search_iterations k = Ok n
       /\ let x := (PI / 4 * sqrt (2 ^ k))%R in
          (Rabs (IZR n - x) <= 1 / 2)%R
          /\ (Rabs (IZR n - x) = 1 / 2 -> Z.even n = true)%R)
  /\ (forall k : nat, 64 <= k -> search_iterations k = Raise TypeError)
  /\ search_iterations 4 = Ok 3%Z.
Proof.
  split; [| split].
  - intros k Hk. exists (grover_iterations k).
    split; [unfold search_iterations; apply Nat.ltb_lt in Hk; now rewrite Hk |].
    intro x. apply np_round_nearest.
  - intros k Hk. unfold search_iterations.
    apply Nat.ltb_ge in Hk. now rewrite Hk.
  - change (search_iterations 4) with (Ok (grover_iterations 4)).
    now rewrite grover_iterations_4.
Qed.

(* ------------------------------------------------------------------ *)
(** ** Exact amplitudes compute the complex simulation *)

Lemma Q2R_Qred (q : Q) : Q2R (Qred q) = Q2R q.
Proof. apply Qeq_eqR, Qred_correct. Qed.

Lemma sqrt2_sqr : (sqrt 2 * sqrt 2 = 2)%R.
Proof. apply sqrt_sqrt. lra. Qed.

Lemma Q2toC_zero : Q2toC Azero = Azero.
Proof.
  change (Q2toC (mkQ2 0 0) = (0%R, 0%R)). unfold Q2toC, Q2R. simpl. f_equal. lra.
Qed.

Lemma Q2toC_one : Q2toC Aone = Aone.
Proof.
  change (Q2toC (mkQ2 1 0) = (1%R, 0%R)). unfold Q2toC, Q2R. simpl. f_equal. lra.
Qed.

Lemma Q2toC_add (x y : Q2) : Q2toC (Aadd x y) = Aadd (Q2toC x) (Q2toC y).
Proof.
  change (Q2toC (Q2add x y) = Cadd (Q2toC x) (Q2toC y)).
  unfold Q2toC, Q2add, Cadd. cbn [rat_part sqrt2_part fst snd].
  rewrite !Q2R_Qred, !Q2R_plus. f_equal; lra.
Qed.

Lemma Q2toC_sub (x y : Q2) : Q2toC (Asub x y) = Asub (Q2toC x) (Q2toC y).
Proof.
  change (Q2toC (Q2sub x y) = Csub (Q2toC x) (Q2toC y)).
  unfold Q2toC, Q2sub, Csub. cbn [rat_part sqrt2_part fst snd].
  rewrite !Q2R_Qred, !Q2R_minus. f_equal; lra.
Qed.

Lemma Q2toC_opp (x : Q2) : Q2toC (Aopp x) = Aopp (Q2toC x).
Proof.
  change (Q2toC (Q2opp x) = Copp (Q2toC x)).
  unfold Q2toC, Q2opp, Copp. cbn [rat_part sqrt2_part fst snd].
  rewrite !Q2R_Qred, !Q2R_opp. f_equal; lra.
Qed.

Lemma rsqrt2_half : (/ sqrt 2 = sqrt 2 / 2)%R.
Proof.
  pose proof sqrt2_sqr as Hs.
  assert (Hpos : (0 < sqrt 2)%R) by (apply sqrt_lt_R0; lra).
  apply (Rmult_eq_reg_l (sqrt 2)); [| lra].
  rewrite Rinv_r by lra.
  replace (sqrt 2 * (sqrt 2 / 2))%R with ((sqrt 2 * sqrt 2) / 2)%R by field.
  rewrite Hs. lra.
Qed.

Lemma Q2toC_rsqrt2 (x : Q2) : Q2toC (Arsqrt2 x) = Arsqrt2 (Q2toC x).
Proof.
  pose proof sqrt2_sqr as Hs.
  change (Q2toC (Q2rsqrt2 x) = Cscale (/ sqrt 2) (Q2toC x)).
  unfold Q2toC, Q2rsqrt2, Cscale. cbn [rat_part sqrt2_part fst snd].
  rewrite !Q2R_Qred, Q2R_mult, rsqrt2_half.
  replace (Q2R (1 # 2)) with (/ 2)%R by (unfold Q2R; simpl; lra).
  set (a := Q2R (rat_part x)). set (b := Q2R (sqrt2_part x)).
  f_equal; [| lra].
  transitivity (b * (sqrt 2 * sqrt 2) / 2 + a * / 2 * sqrt 2)%R;
    [rewrite Hs; field | field].
Qed.

Lemma Q2toC_norm2 (x : Q2) : Q2toC (Anorm2 x) = Anorm2 (Q2toC x).
Proof.
  pose proof sqrt2_sqr as Hs.
  change (Q2toC (Q2sqr x) = (Cnorm2 (Q2toC x), 0%R)).
  unfold Q2toC, Q2sqr, Cnorm2. cbn [rat_part sqrt2_part fst snd].
  rewrite !Q2R_Qred, Q2R_plus, !Q2R_mult.
  replace (Q2R (2 # 1)) with 2%R by (unfold Q2R; simpl; lra).
  set (a := Q2R (rat_part x)). set (b := Q2R (sqrt2_part x)).
  f_equal.
  transitivity (a * a + 2 * a * b * sqrt 2 + b * b * (sqrt 2 * sqrt 2))%R;
    [rewrite Hs; ring | ring].
Qed.

Lemma amp_map_Q2toC (psi : list Q2) (j : nat) :
  amp (map Q2toC psi) j = Q2toC (amp psi j).
Proof.
  unfold amp. rewrite <- Q2toC_zero. apply map_nth.
Qed.

Lemma map_Q2toC_tabulate (N : nat) (f : nat -> Q2) :
  map Q2toC (tabulate N f) = tabulate N (fun j => Q2toC (f j)).
Proof. unfold tabulate. apply map_map. Qed.

Lemma op_qubits_cast (op : Operation Empty_set) : op_qubits (op_cast op) = op_qubits op.
Proof. destruct op as [q | q | q | c t | cs t | [] q |]; reflexivity. Qed.

Lemma circuit_ok_cast (c : Circuit Empty_set) : circuit_ok (circuit_cast c) = circuit_ok c.
Proof.
  unfold circuit_ok, circuit_cast. simpl. f_equal.
  induction (data c) as [|op ops IH]; simpl; [reflexivity |].
  rewrite IH. f_equal. unfold op_ok. now rewrite op_qubits_cast.
Qed.

Lemma apply_gate_cast (op : Operation Empty_set) (psi : list Q2) :
  map Q2toC (apply_gate op psi) = apply_gate (op_cast op) (map Q2toC psi).
Proof.
  destruct op as [q | q | q | c t | cs t | [] q |]; simpl; [| | | | | reflexivity].
  - unfold apply_h. rewrite map_Q2toC_tabulate, length_map.
    apply tabulate_ext. intros j _. rewrite !amp_map_Q2toC.
    destruct (Nat.testbit j q).
    + now rewrite Q2toC_rsqrt2, Q2toC_sub.
    + now rewrite Q2toC_rsqrt2, Q2toC_add.
  - unfold apply_x. rewrite map_Q2toC_tabulate, length_map.
    apply tabulate_ext. intros j _. now rewrite amp_map_Q2toC.
  - unfold apply_z. rewrite map_Q2toC_tabulate, length_map.
    apply tabulate_ext. intros j _. rewrite amp_map_Q2toC.
    destruct (Nat.testbit j q); [apply Q2toC_opp | reflexivity].
  - unfold apply_cx. rewrite map_Q2toC_tabulate, length_map.
    apply tabulate_ext. intros j _. rewrite !amp_map_Q2toC.
    now destruct (Nat.testbit j c).
  - unfold apply_mcx. rewrite map_Q2toC_tabulate, length_map.
    apply tabulate_ext. intros j _. rewrite !amp_map_Q2toC.
    now destruct (controls_set cs j).
Qed.

Lemma apply_gates_cast (ops : list (Operation Empty_set)) (psi : list Q2) :
  map Q2toC (apply_gates ops psi) = apply_gates (map op_cast ops) (map Q2toC psi).
Proof.
  revert psi. induction ops as [|op ops IH]; intro psi; [reflexivity |].
  change (map Q2toC (apply_gates ops (apply_gate op psi))
          = apply_gates (map op_cast ops) (apply_gate (op_cast op) (map Q2toC psi))).
  now rewrite IH, apply_gate_cast.
Qed.

Lemma init_state_cast (n : nat) : map Q2toC (init_state n) = init_state n.
Proof.
  unfold init_state. rewrite map_Q2toC_tabulate.
  apply tabulate_ext. intros j _.
  destruct (j =? 0); [apply Q2toC_one | apply Q2toC_zero].
Qed.

(** The complex simulation of a rotation-free circuit is the image of its
    exact simulation. *)
Lemma simulate_cast (c : Circuit Empty_set) (psi : list Q2) :
  simulate c = Ok psi -> simulate (circuit_cast c) = Ok (map Q2toC psi).
Proof.
  unfold simulate. rewrite circuit_ok_cast.
  destruct (circuit_ok c); [| discriminate].
  intro H. inversion H; subst psi; clear H.
  simpl. now rewrite apply_gates_cast, init_state_cast.
Qed.

Lemma Asum_cast (l : list Q2) : Q2toC (Asum l) = Asum (map Q2toC l).
Proof.
  induction l as [|x l IH]; [apply Q2toC_zero |].
  change (Q2toC (Aadd x (Asum l)) = Aadd (Q2toC x) (Asum (map Q2toC l))).
  now rewrite Q2toC_add, IH.
Qed.

Lemma outcome_probability_cast (c : Circuit Empty_set) (psi : list Q2) (key : string) :
  outcome_probability (circuit_cast c) (map Q2toC psi) key
  = Q2toC (outcome_probability c psi key).
Proof.
  unfold outcome_probability. rewrite Asum_cast, map_map, length_map.
  f_equal. apply map_ext. intro j.
  change (counts_key (circuit_cast c) j) with (counts_key c j).
  destruct (String.eqb (counts_key c j) key).
  - now rewrite amp_map_Q2toC, Q2toC_norm2.
  - symmetry. apply Q2toC_zero.
Qed.

(* ------------------------------------------------------------------ *)
(** ** The Grover search *)



(** One complete run of [run_search]: entries "xss", "local", "high" (target
    ["1011"]), clock readings 0 and 1, random draw 0, and a simulator that
    returns [sampled_example]. *)
Lemma run_search_example :
  run_search (fun (_ : Circuit R) (_ : nat) => sampled_example) 4 "xss" "local" "high"
             0%R 1%R 0%R
  = Completed (mkReport (highlight (scan (mock_db 4 16)) "1011") (1 - 0)%R
                        (force_target sampled_example "1011")
                        (synthesized_quantum_time 4 (1 - 0) 0)
                        ((1 - 0) / synthesized_quantum_time 4 (1 - 0) 0)%R).
Proof.
  unfold run_search.
  change (search_iterations 4) with (Ok (grover_iterations 4)).
  rewrite grover_iterations_4.
  cbn [is_empty orb].
  change (create_feature_vector "xss" "local" "high") with "1011".
  unfold run_classical_search.
  replace (run_grover_manual (fun (_ : Circuit R) (_ : nat) => sampled_example)
                             4 "1011" (Z.to_nat 3))
    with (Ok (A:=dict) sampled_example) by (vm_compute; reflexivity).
  reflexivity.
Qed.

(** C3, as stated, fails.  In the run above the counts reported by
    [run_search] are not the sampled ones: the target's bin is raised from
    3 to 9850, ten times the highest sampled count. *)
Lemma run_search_raises_target_bin :
  exists r : SearchReport,
    run_search (fun (_ : Circuit R) (_ : nat) => sampled_example) 4 "xss" "local" "high"
               0%R 1%R 0%R = Completed r
    /\ quantum_counts r <> sampled_example
    /\ dict_get sampled_example "1011" = Some 3
    /\ dict_get (quantum_counts r) "1011" = Some (985 * 10).
Proof.
  eexists. split; [apply run_search_example |]. cbn [quantum_counts].
  split; [| split].
  - vm_compute. discriminate.
  - reflexivity.
  - vm_compute. reflexivity.
Qed.

Lemma force_target_get_target (counts : dict) (fv : string) :
  dict_get (force_target counts fv) fv
  = Some (match counts with
          | [] => 1024
          | _ => list_max_nat (dict_values counts)
          end * 10).
Proof. unfold force_target. apply dict_get_set_same. Qed.

Lemma force_target_get_other (counts : dict) (fv key : string) :
  key <> fv -> dict_get (force_target counts fv) key = dict_get counts key.
Proof.
  intro Hne. unfold force_target.
  rewrite dict_get_set_other by congruence.
  destruct (dict_mem counts fv); [reflexivity |].
  apply dict_get_set_other. congruence.
Qed.


Lemma search_iterations_small (k : nat) :
  k < 64 -> search_iterations k = Ok (grover_iterations k).
Proof.
  intro Hk. unfold search_iterations.
  apply Nat.ltb_lt in Hk. now rewrite Hk.
Qed.

Lemma search_iterations_large (k : nat) :
  64 <= k -> search_iterations k = Raise TypeError.
Proof.
  intro Hk. unfold search_iterations.
  apply Nat.ltb_ge in Hk. now rewrite Hk.
Qed.

Lemma search_iterations_Ok (k : nat) (n : Z) :
  search_iterations k = Ok n -> k < 64 /\ n = grover_iterations k.
Proof.
  unfold search_iterations. destruct (k <? 64) eqn:E; [| discriminate].
  apply Nat.ltb_lt in E. intro H. inversion H. auto.
Qed.

(** With all three fields filled in and at least four, fewer than 64,
    search qubits, [run_search] completes: the iteration count is computed,
    the Grover circuit for the feature vector is constructed without error
    and the report is produced. *)
Lemma run_search_completes (Ang : Type) (simulator_run : Circuit Ang -> nat -> dict)
      (k : nat) (description attack_vector privilege : string)
      (start_time end_time rnd : R) :
  4 <= k -> k < 64 ->
  is_empty description = false -> is_empty attack_vector = false ->
  is_empty privilege = false ->
  exists r : SearchReport,
    run_search simulator_run k description attack_vector privilege
               start_time end_time rnd = Completed r.
Proof.
  intros Hk Hk64 Hd Ha Hp. unfold run_search. rewrite Hd, Ha, Hp. cbn [orb].
  rewrite (search_iterations_small Hk64).
  destruct (create_feature_vector_shape description attack_vector privilege)
    as [Hlen Hbits].
  unfold run_classical_search, run_grover_manual.
  rewrite grover_circuit_succeeds by (auto; lia).
  cbn [bind]. eexists. reflexivity.
Qed.

(** C3, amended.  [run_grover_manual] returns the simulator's counts as they
    are, but whenever [run_search] completes, the quantum counts it reports
    are the sampled counts with the target's bin overwritten by ten times
    the highest sampled count (every other bin is unchanged), and the
    quantum time it reports is computed from the classical scan's duration:
    [classical_time * (sqrt N / N) * v] with [N = 2^k] and
    [v = 0.9 + 0.2 * rnd] for one random draw [rnd]; no clock is read around
    the quantum search. *)
Theorem run_search_report :
  forall (Ang : Type) (simulator_run : Circuit Ang -> nat -> dict) (k : nat)
         (description attack_vector privilege : string)
         (start_time end_time rnd : R) (r : SearchReport),
    run_search simulator_run k description attack_vector privilege
               start_time end_time rnd = Completed r ->
    let fv := create_feature_vector description attack_vector privilege in
    exists (qc : Circuit Ang),
      grover_circuit Ang k fv (Z.to_nat (grover_iterations k)) = Ok qc
      /\ run_grover_manual simulator_run k fv (Z.to_nat (grover_iterations k))
         = Ok (simulator_run qc 1024)
      /\ dict_get (quantum_counts r) fv
         = Some (match simulator_run qc 1024 with
                 | [] => 1024
                 | _ => list_max_nat (dict_values (simulator_run qc 1024))
                 end * 10)
      /\ (forall key, key <> fv ->
            dict_get (quantum_counts r) key = dict_get (simulator_run qc 1024) key)
      /\ quantum_time r
         = ((end_time - start_time) * (sqrt (2 ^ k) / 2 ^ k) * (9 / 10 + 2 / 10 * rnd))%R.
Proof.
  intros Ang sim k d a p st en rnd r. unfold run_search.
  destruct (is_empty d || is_empty a || is_empty p); [discriminate |].
  destruct (search_iterations k) as [n | e] eqn:En; [| discriminate].
  apply search_iterations_Ok in En as [_ ->].
  set (fv := create_feature_vector d a p). unfold run_classical_search.
  unfold run_grover_manual.
  destruct (grover_circuit Ang k fv (Z.to_nat (grover_iterations k))) as [qc | e];
    cbn [bind]; [| discriminate].
  intro E. inversion E; subst r; clear E. cbn [quantum_counts quantum_time].
  exists qc. repeat split.
  - apply force_target_get_target.
  - intros key Hne. now apply force_target_get_other.
Qed.

Lemma run_search_report_witness :
  let fv := create_feature_vector "xss" "local" "high" in
  let sim := fun (_ : Circuit R) (_ : nat) => sampled_example in
  let r := mkReport (highlight (scan (mock_db 4 16)) "1011") (1 - 0)%R
                    (force_target sampled_example "1011")
                    (synthesized_quantum_time 4 (1 - 0) 0)
                    ((1 - 0) / synthesized_quantum_time 4 (1 - 0) 0)%R in
  exists (qc : Circuit R),
    grover_circuit R 4 fv (Z.to_nat (grover_iterations 4)) = Ok qc
    /\ run_grover_manual sim 4 fv (Z.to_nat (grover_iterations 4)) = Ok (sim qc 1024)
    /\ dict_get (quantum_counts r) fv
       = Some (match sim qc 1024 with
               | [] => 1024
               | _ => list_max_nat (dict_values (sim qc 1024))
               end * 10)
    /\ (forall key, key <> fv ->
          dict_get (quantum_counts r) key = dict_get (sim qc 1024) key)
    /\ quantum_time r
       = ((1 - 0) * (sqrt (2 ^ 4) / 2 ^ 4) * (9 / 10 + 2 / 10 * 0))%R.
Proof.
  exact (@run_search_report R (fun (_ : Circuit R) (_ : nat) => sampled_example)
           4 "xss" "local" "high" 0%R 1%R 0%R _ run_search_example).
Defined.

(** The scenario of C1 evaluated with exact amplitudes: the circuit built
    for four search qubits, target ["1011"] and three iterations, and the
    probability of each of the sixteen outcomes. *)
Lemma grover_1011_exact :
  exists (qc : Circuit Empty_set) (psi : list Q2),
    grover_circuit Empty_set 4 "1011" 3 = Ok qc
    /\ grover_circuit R 4 "1011" 3 = Ok (circuit_cast qc)
    /\ simulate qc = Ok psi
    /\ map (fun v => outcome_probability qc psi (format_b 4 v)) (seq 0 16)
       = map (fun v => if String.eqb (format_b 4 v) "1101"
                       then mkQ2 (63001 # 65536) 0
                       else mkQ2 (169 # 65536) 0)
             (seq 0 16).
Proof.
  eexists. eexists.
  split; [vm_compute; reflexivity |].
  split; [vm_compute; reflexivity |].
  split; [vm_compute; reflexivity |].
  vm_compute. reflexivity.
Qed.

(** For a target that reads the same in both directions the peak is at the
    target: with ["1001"] the same construction amplifies ["1001"]. *)
Lemma grover_1001_exact :
  exists (qc : Circuit Empty_set) (psi : list Q2),
    grover_circuit Empty_set 4 "1001" 3 = Ok qc
    /\ simulate qc = Ok psi
    /\ map (fun v => outcome_probability qc psi (format_b 4 v)) (seq 0 16)
       = map (fun v => if String.eqb (format_b 4 v) "1001"
                       then mkQ2 (63001 # 65536) 0
                       else mkQ2 (169 # 65536) 0)
             (seq 0 16).
Proof.
  eexists. eexists.
  split; [vm_compute; reflexivity |].
  split; [vm_compute; reflexivity |].
  vm_compute. reflexivity.
Qed.

Lemma Q2toC_rational (q : Q) : Q2toC (mkQ2 q 0) = (Q2R q, 0%R).
Proof.
  unfold Q2toC. cbn [rat_part sqrt2_part]. f_equal.
  replace (Q2R 0) with 0%R by (unfold Q2R; simpl; lra). lra.
Qed.

(** C1 at its scenario: four search qubits, target ["1011"], three
    iterations (the computed count).  The circuit [run_grover_manual]
    constructs simulates to a state whose outcome distribution has its peak
    at ["1101"], the target read backwards, with probability 63001/65536
    (about 0.961); every other outcome, the target ["1011"] included, has
    probability 169/65536 (about 0.0026), below the uniform baseline 1/16.
    The 1024 shots are drawn from this distribution. *)
Theorem grover_1011_distribution :
  exists (qc : Circuit R) (psi : list C),
    grover_circuit R 4 "1011" (Z.to_nat (grover_iterations 4)) = Ok qc
    /\ simulate qc = Ok psi
    /\ (forall v, v < 16 ->
          outcome_probability qc psi (format_b 4 v)
          = ((if String.eqb (format_b 4 v) "1101"
              then 63001 / 65536 else 169 / 65536)%R, 0%R))
    /\ outcome_probability qc psi "1011" = ((169 / 65536)%R, 0%R)
    /\ outcome_probability qc psi "1101" = ((63001 / 65536)%R, 0%R)
    /\ (169 / 65536 < 1 / 16 < 63001 / 65536)%R.
Proof.
  rewrite grover_iterations_4.
  destruct grover_1011_exact as [qc [psi [_ [Hbuild [Hsim Hdist]]]]].
  exists (circuit_cast qc), (map Q2toC psi).
  assert (Hall : forall v, v < 16 ->
            outcome_probability (circuit_cast qc) (map Q2toC psi) (format_b 4 v)
            = ((if String.eqb (format_b 4 v) "1101"
                then 63001 / 65536 else 169 / 65536)%R, 0%R)).
  { intros v Hv. rewrite outcome_probability_cast.
    assert (Hin : In v (seq 0 16)) by (apply in_seq; lia).
    pose proof (proj1 (@map_ext_in_iff _ _ _ _ _) Hdist v Hin) as Hv'. cbv beta in Hv'. rewrite Hv'.
    destruct (String.eqb (format_b 4 v) "1101");
      rewrite Q2toC_rational; f_equal; unfold Q2R; simpl; lra. }
  split; [exact Hbuild |].
  split; [apply simulate_cast; exact Hsim |].
  split; [exact Hall |].
  split; [exact (Hall 11 ltac:(lia)) |].
  split; [exact (Hall 13 ltac:(lia)) |].
  lra.
Qed.

(* ================================================================== *)
(** * Further properties of the sources *)
(* ------------------------------------------------------------------ *)
(** ** Feature vectors and their names *)

Lemma create_feature_vector_classes (d a p : string) :
  create_feature_vector d a p
  = (match vuln_class d with
     | BufferOverflow => "00" | SqlInjection => "01" | Xss => "10" | OtherVuln => "11"
     end)
    ++ (if is_remote a then "0" else "1") ++ (if is_low p then "0" else "1").
Proof.
  unfold create_feature_vector, vuln_class, is_remote, is_low.
  destruct (contains "buffer" (lower d)), (contains "sql" (lower d)),
    (contains "xss" (lower d)), (contains "remote" (lower a)),
    (String.eqb (lower p) "low"); reflexivity.
Qed.

(** X1.  The label [plot_histogram] shows for the feature vector of a search
    names the classes the search fell into: attack vector, vulnerability
    type and privilege, as [vulnerability_map] spells them. *)
Theorem feature_vector_label :
  forall description attack_vector privilege_required : string,
    vulnerability_label
      (create_feature_vector description attack_vector privilege_required)
    = class_label (vuln_class description) (is_remote attack_vector)
                  (is_low privilege_required).
Proof.
  intros d a p. rewrite create_feature_vector_classes.
  destruct (vuln_class d), (is_remote a), (is_low p); reflexivity.
Qed.

(** X2.  Two searches get the same feature vector exactly when they fall
    into the same vulnerability class, the same attack-vector class and the
    same privilege class. *)
Theorem feature_vector_eq_iff :
  forall d a p d' a' p' : string,
    create_feature_vector d a p = create_feature_vector d' a' p'
    <-> vuln_class d = vuln_class d'
        /\ is_remote a = is_remote a'
        /\ is_low p = is_low p'.
Proof.
  intros d a p d' a' p'. rewrite !create_feature_vector_classes.
  split.
  - destruct (vuln_class d), (vuln_class d'), (is_remote a), (is_remote a'),
      (is_low p), (is_low p'); simpl; intro E;
      first [discriminate E | repeat split; reflexivity].
  - intros [-> [-> ->]]. reflexivity.
Qed.

(* ------------------------------------------------------------------ *)
(** ** The iteration count and the reported times *)

Lemma sqrt_pow2_ge_1 (k : nat) : (1 <= sqrt (2 ^ k))%R.
Proof.
  rewrite <- sqrt_1. apply sqrt_le_1_alt.
  apply pow_R1_Rle. lra.
Qed.

Lemma grover_iterations_ge_1 (k : nat) : (1 <= grover_iterations k)%Z.
Proof.
  unfold grover_iterations.
  set (x := (PI / 4 * sqrt (2 ^ k))%R).
  pose proof (np_round_nearest x) as [Hnear _].
  pose proof PI_bounds as [Hpi _].
  pose proof (sqrt_pow2_ge_1 k) as Hs.
  assert (Hx : (3 / 4 < x)%R).
  { unfold x. apply Rlt_le_trans with (PI / 4 * 1)%R; [lra |].
    apply Rmult_le_compat_l; lra. }
  assert (Hr : (0 < IZR (np_round x))%R).
  { destruct (Rcase_abs (IZR (np_round x) - x)) as [Hneg | Hpos].
    - rewrite (Rabs_left _ Hneg) in Hnear. lra.
    - lra. }
  apply lt_IZR in Hr. lia.
Qed.

(** X3.  For fewer than 64 search qubits, where the iteration count is
    computed, it is at least 1: [run_search] never asks for a Grover search
    of zero iterations. *)
Theorem grover_iterations_positive :
  forall k : nat,
    k < 64 ->
    exists n : Z, search_iterations k = Ok n /\ (1 <= n)%Z.
Proof.
  intros k Hk. exists (grover_iterations k). split.
  - now apply search_iterations_small.
  - apply grover_iterations_ge_1.
Qed.

Lemma grover_iterations_positive_witness :
  exists n : Z, search_iterations 4 = Ok n /\ (1 <= n)%Z.
Proof. apply (@grover_iterations_positive 4). lia. Defined.

(** X4.  Whenever [run_search] completes after a classical scan of positive
    duration, the speedup it reports is [sqrt N / v] with [N = 2^k] and
    [v = 0.9 + 0.2 * rnd]: it depends on the random draw only, and lies
    between [sqrt N / 1.1] and [sqrt N / 0.9] whatever the searches did. *)
Theorem run_search_speedup :
  forall (Ang : Type) (simulator_run : Circuit Ang -> nat -> dict) (k : nat)
         (description attack_vector privilege : string)
         (start_time end_time rnd : R) (r : SearchReport),
    run_search simulator_run k description attack_vector privilege
               start_time end_time rnd = Completed r ->
    (start_time < end_time)%R ->
    (0 <= rnd < 1)%R ->
    speedup r = (sqrt (2 ^ k) / (9 / 10 + 2 / 10 * rnd))%R
    /\ (sqrt (2 ^ k) * (10 / 11) < speedup r <= sqrt (2 ^ k) * (10 / 9))%R.
Proof.
  intros Ang sim k d a p st en rnd r. unfold run_search.
  destruct (is_empty d || is_empty a || is_empty p); [discriminate |].
  destruct (search_iterations k) as [n | e]; [| discriminate].
  unfold run_classical_search.
  destruct (run_grover_manual sim k (create_feature_vector d a p) (Z.to_nat n));
    [| discriminate].
  intro E. inversion E; subst r; clear E. cbn [speedup].
  intros Htime [Hr0 Hr1].
  unfold synthesized_quantum_time.
  set (N := (2 ^ k)%R). set (s := sqrt N). set (v := (9 / 10 + 2 / 10 * rnd)%R).
  assert (HN : (0 < N)%R) by (apply pow_lt; lra).
  assert (Hs : (0 < s)%R) by (apply sqrt_lt_R0; exact HN).
  assert (Hss : (s * s = N)%R) by (apply sqrt_sqrt; lra).
  assert (Hv : (9 / 10 <= v < 11 / 10)%R) by (unfold v; lra).
  assert (Heq : ((en - st) / ((en - st) * (s / N) * v) = s / v)%R).
  { rewrite <- Hss. field. repeat split; lra. }
  rewrite Heq. split; [reflexivity |].
  assert (Hiv : (10 / 11 < / v <= 10 / 9)%R).
  { split.
    - replace (10 / 11)%R with (/ (11 / 10))%R by field.
      apply Rinv_lt_contravar; [nra | lra].
    - replace (10 / 9)%R with (/ (9 / 10))%R by field.
      apply Rinv_le_contravar; lra. }
  unfold Rdiv. split.
  - apply Rmult_lt_compat_l; [exact Hs | lra].
  - apply Rmult_le_compat_l; lra.
Qed.

Lemma run_search_speedup_witness :
  speedup (mkReport (highlight (scan (mock_db 4 16)) "1011") (1 - 0)%R
                    (force_target sampled_example "1011")
                    (synthesized_quantum_time 4 (1 - 0) 0)
                    ((1 - 0) / synthesized_quantum_time 4 (1 - 0) 0)%R)
  = (sqrt (2 ^ 4) / (9 / 10 + 2 / 10 * 0))%R
  /\ (sqrt (2 ^ 4) * (10 / 11)
      < speedup (mkReport (highlight (scan (mock_db 4 16)) "1011") (1 - 0)%R
                          (force_target sampled_example "1011")
                          (synthesized_quantum_time 4 (1 - 0) 0)
                          ((1 - 0) / synthesized_quantum_time 4 (1 - 0) 0)%R)
      <= sqrt (2 ^ 4) * (10 / 9))%R.
Proof.
  apply (@run_search_speedup R (fun (_ : Circuit R) (_ : nat) => sampled_example)
           4 "xss" "local" "high" 0%R 1%R 0%R _ run_search_example); lra.
Defined.

(** X5.  With all three fields filled in, at least four and fewer than 64
    search qubits and a clock that advanced during the classical scan,
    [run_search] completes with a report whenever the simulator returns
    counts: neither the missing-information branch nor the error branch is
    taken.  The reported classical time is the measured one, the target's
    classical count is 4, and the synthesized quantum time is positive, so
    the division for the speedup is defined.  From 64 search qubits on the
    iteration count cannot be computed and the error branch is taken. *)
Theorem run_search_always_completes :
  forall (Ang : Type) (simulator_run : Circuit Ang -> nat -> dict) (k : nat)
         (description attack_vector privilege : string)
         (start_time end_time rnd : R),
    is_empty description = false ->
    is_empty attack_vector = false ->
    is_empty privilege = false ->
    (start_time < end_time)%R ->
    (0 <= rnd < 1)%R ->
    (4 <= k < 64 ->
     exists r : SearchReport,
       run_search simulator_run k description attack_vector privilege
                  start_time end_time rnd = Completed r
       /\ classical_time r = (end_time - start_time)%R
       /\ (0 < quantum_time r)%R
       /\ dict_get (classical_counts r)
                   (create_feature_vector description attack_vector privilege)
          = Some 4)
    /\ (64 <= k ->
        run_search simulator_run k description attack_vector privilege
                   start_time end_time rnd = ComputationError TypeError).
Proof.
  intros Ang sim k d a p st en rnd Hd Ha Hp Htime Hrnd.
  unfold run_search. rewrite Hd, Ha, Hp. cbn [orb]. split.
  - intros [Hk Hk64]. rewrite (search_iterations_small Hk64).
    destruct (create_feature_vector_shape d a p) as [Hlen Hbits].
    unfold run_classical_search, run_grover_manual.
    rewrite grover_circuit_succeeds by (auto; lia).
    cbn [bind]. eexists. split; [reflexivity |].
    cbn [classical_time classical_counts quantum_time]. split; [reflexivity |].
    split.
    + unfold synthesized_quantum_time.
      assert (HN : (0 < 2 ^ k)%R) by (apply pow_lt; lra).
      apply Rmult_lt_0_compat; [| lra].
      apply Rmult_lt_0_compat; [lra |].
      apply Rdiv_lt_0_compat; [apply sqrt_lt_R0 |]; exact HN.
    + unfold highlight.
      destruct (dict_get (scan (mock_db k 16)) (create_feature_vector d a p))
        as [c |] eqn:E.
      * rewrite dict_get_set_same. rewrite scan_mock_db in E.
        assert (Hin : In (create_feature_vector d a p) (mock_db k 16)).
        { destruct (in_dec string_dec (create_feature_vector d a p) (mock_db k 16))
            as [Hi | Hn]; [exact Hi |].
          rewrite dict_get_absent in E; [discriminate | now rewrite dict_keys_ones]. }
        rewrite (dict_get_ones _ _ Hin) in E. inversion E. reflexivity.
      * apply dict_get_set_same.
  - intro Hk. now rewrite (search_iterations_large Hk).
Qed.

Lemma run_search_always_completes_witness :
  exists r : SearchReport,
    run_search (fun (_ : Circuit R) (_ : nat) => sampled_example) 4 "xss" "local" "high"
               0%R 1%R 0%R = Completed r
    /\ classical_time r = (1 - 0)%R
    /\ (0 < quantum_time r)%R
    /\ dict_get (classical_counts r) (create_feature_vector "xss" "local" "high")
       = Some 4.
Proof.
  apply (@run_search_always_completes R (fun (_ : Circuit R) (_ : nat) => sampled_example)
           4 "xss" "local" "high" 0%R 1%R 0%R);
    first [reflexivity | lra | lia].
Defined.

(** X6.  On zero search qubits [run_search] with filled-in fields ends in
    its error branch: the [CircuitError] of the circuit construction is
    caught and reported, no report is produced. *)
Theorem run_search_zero_qubits :
  forall (Ang : Type) (simulator_run : Circuit Ang -> nat -> dict)
         (description attack_vector privilege : string)
         (start_time end_time rnd : R),
    is_empty description = false ->
    is_empty attack_vector = false ->
    is_empty privilege = false ->
    run_search simulator_run 0 description attack_vector privilege
               start_time end_time rnd = ComputationError CircuitError.
Proof.
  intros Ang sim d a p st en rnd Hd Ha Hp.
  unfold run_search. rewrite Hd, Ha, Hp. reflexivity.
Qed.

Lemma run_search_zero_qubits_witness :
  run_search (fun (_ : Circuit R) (_ : nat) => sampled_example) 0 "xss" "local" "high"
             0%R 1%R 0%R = ComputationError CircuitError.
Proof.
  apply (@run_search_zero_qubits R (fun (_ : Circuit R) (_ : nat) => sampled_example)
           "xss" "local" "high" 0%R 1%R 0%R); reflexivity.
Defined.

(* ------------------------------------------------------------------ *)
(** ** The counts shown for the quantum search *)

Lemma dict_get_le_max (d : dict) (k : string) (c : nat) :
  dict_get d k = Some c -> c <= list_max_nat (dict_values d).
Proof.
  unfold list_max_nat, dict_values.
  induction d as [|[k' v] d IH]; simpl; [discriminate |].
  destruct (String.eqb k' k).
  - intro E. inversion E. lia.
  - intro E. specialize (IH E). lia.
Qed.

Lemma list_max_nat_positive (d : dict) :
  (exists k c, dict_get d k = Some c /\ 0 < c) -> 0 < list_max_nat (dict_values d).
Proof.
  intros [k [c [Hget Hc]]]. apply dict_get_le_max in Hget. lia.
Qed.

Lemma force_target_keys (sampled : dict) (fv : string) :
  dict_keys (force_target sampled fv)
  = if dict_mem sampled fv then dict_keys sampled
    else (dict_keys sampled ++ [fv])%list.
Proof.
  unfold force_target, dict_mem.
  destruct (dict_get sampled fv) as [c |] eqn:E.
  - apply dict_set_keys_present. congruence.
  - rewrite dict_set_keys_present by (rewrite dict_get_set_same; discriminate).
    rewrite dict_set_absent by exact E. unfold dict_keys. now rewrite map_app.
Qed.

(** X7.  Whatever counts the simulator returned, as long as one of them is
    positive, the counts [run_search] reports are the sampled counts with
    one bin changed: the keys are the sampled keys in their order (the
    target appended at the end if it was not sampled), every bin other than
    the target's keeps its sampled count, and the target's bin holds ten
    times the highest sampled count.  So the target is the strict maximum:
    every other bin holds at most the highest sampled count. *)
Theorem force_target_strict_maximum :
  forall (sampled : dict) (feature_vector : string),
    (exists k c, dict_get sampled k = Some c /\ 0 < c) ->
    let highest := list_max_nat (dict_values sampled) in
    let shown := force_target sampled feature_vector in
    dict_keys shown
    = (if dict_mem sampled feature_vector then dict_keys sampled
       else (dict_keys sampled ++ [feature_vector])%list)
    /\ dict_get shown feature_vector = Some (highest * 10)
    /\ (forall key, key <> feature_vector ->
          dict_get shown key = dict_get sampled key)
    /\ (forall key c, key <> feature_vector ->
          dict_get shown key = Some c ->
          c <= highest /\ c < highest * 10).
Proof.
  intros sampled fv Hpos highest shown. subst shown.
  pose proof (list_max_nat_positive sampled Hpos) as Hh. fold highest in Hh.
  split; [apply force_target_keys |]. split; [| split].
  - rewrite force_target_get_target.
    destruct sampled; [destruct Hpos as [k [c [E _]]]; discriminate | reflexivity].
  - intros key Hne. now apply force_target_get_other.
  - intros key c Hne Hget. rewrite force_target_get_other in Hget by exact Hne.
    apply dict_get_le_max in Hget. fold highest in Hget. lia.
Qed.

Lemma force_target_strict_maximum_witness :
  let highest := list_max_nat (dict_values sampled_example) in
  let shown := force_target sampled_example "1011" in
  dict_keys shown
  = (if dict_mem sampled_example "1011" then dict_keys sampled_example
     else (dict_keys sampled_example ++ ["1011"])%list)
  /\ dict_get shown "1011" = Some (highest * 10)
  /\ (forall key, key <> "1011" -> dict_get shown key = dict_get sampled_example key)
  /\ (forall key c, key <> "1011" ->
        dict_get shown key = Some c ->
        c <= highest /\ c < highest * 10).
Proof.
  apply (force_target_strict_maximum sampled_example "1011").
  exists "1101", 985. split; [reflexivity | lia].
Defined.

Lemma force_target_empty (feature_vector : string) :
  force_target [] feature_vector = [(feature_vector, 1024 * 10)].
Proof.
  unfold force_target. simpl. now rewrite String.eqb_refl.
Qed.

(* ------------------------------------------------------------------ *)
(** ** The keys of the classical counts *)

Lemma highlight_keys (matches : dict) (target : string) :
  dict_keys (highlight matches target)
  = if dict_mem matches target then dict_keys matches
    else (dict_keys matches ++ [target])%list.
Proof.
  unfold highlight, dict_mem.
  destruct (dict_get matches target) as [c |] eqn:E.
  - apply dict_set_keys_present. congruence.
  - rewrite dict_set_absent by exact E. unfold dict_keys.
    now rewrite map_app.
Qed.

(** X8.  The counts [run_classical_search] returns are keyed by the database
    entries, in database order; a target that is not a database entry is
    added as one more key at the end (with count 4), so the mapping then has
    one key more than the database has entries. *)
Theorem run_classical_search_keys :
  forall (k : nat) (target_pattern : string) (database_size : nat)
         (start_time end_time : R),
    let counts := fst (run_classical_search k target_pattern database_size
                                            start_time end_time) in
    (In target_pattern (mock_db k database_size) ->
       dict_keys counts = mock_db k database_size)
    /\ (~ In target_pattern (mock_db k database_size) ->
          dict_keys counts = (mock_db k database_size ++ [target_pattern])%list
          /\ dict_get counts target_pattern = Some 4).
Proof.
  intros k t n st en counts. subst counts.
  unfold run_classical_search. cbn [fst].
  rewrite scan_mock_db, highlight_keys, dict_keys_ones. unfold dict_mem.
  split.
  - intro Hin. now rewrite (dict_get_ones _ _ Hin).
  - intro Hn.
    assert (E : dict_get (map (fun e => (e, 1)) (mock_db k n)) t = None)
      by (apply dict_get_absent; now rewrite dict_keys_ones).
    rewrite E. split; [reflexivity |].
    unfold highlight. rewrite E. apply dict_get_set_same.
Qed.

(* ------------------------------------------------------------------ *)
(** ** The mock database *)

Lemma length_pos_bin (p : positive) : String.length (pos_bin p) = Pos.size_nat p.
Proof.
  induction p as [p IH | p IH |]; simpl; try reflexivity;
    rewrite length_append, IH; simpl; lia.
Qed.

Lemma size_nat_bound (p : positive) (k : nat) :
  Pos.to_nat p < 2 ^ k -> Pos.size_nat p <= k.
Proof.
  revert k. induction p as [p IH | p IH |]; intros k Hlt; simpl.
  - destruct k as [|k]; [simpl in Hlt; lia |].
    rewrite Pos2Nat.inj_xI in Hlt. simpl in Hlt.
    specialize (IH k). lia.
  - destruct k as [|k]; [simpl in Hlt; lia |].
    rewrite Pos2Nat.inj_xO in Hlt. simpl in Hlt.
    specialize (IH k). lia.
  - destruct k as [|k]; [simpl in Hlt; lia | lia].
Qed.

Lemma length_bin_bound (i k : nat) :
  0 < k -> i < 2 ^ k -> String.length (bin (N.of_nat i)) <= k.
Proof.
  intros Hk Hi. destruct (N.of_nat i) as [|p] eqn:E; simpl; [lia |].
  rewrite length_pos_bin. apply size_nat_bound.
  assert (Pos.to_nat p = i) by (rewrite <- (Nat2N.id i), E; reflexivity). lia.
Qed.

Lemma bitstring_pos_bin (p : positive) : bitstring (pos_bin p) = true.
Proof.
  induction p as [p IH | p IH |]; simpl; try reflexivity;
    apply bitstring_append; auto.
Qed.

Lemma bitstring_format_b (w i : nat) : bitstring (format_b w i) = true.
Proof.
  unfold format_b. apply bitstring_append; [apply bitstring_zeros |].
  destruct (N.of_nat i); [reflexivity | apply bitstring_pos_bin].
Qed.

Lemma length_format_b (k i : nat) :
  0 < k -> i < 2 ^ k -> String.length (format_b k i) = k.
Proof.
  intros Hk Hi. pose proof (length_bin_bound Hk Hi) as Hb.
  unfold format_b. rewrite length_append, length_zeros. lia.
Qed.

Lemma bitstring_cons (c : ascii) (s : string) :
  bitstring (String c s) = true -> (c = "0"%char \/ c = "1"%char) /\ bitstring s = true.
Proof.
  unfold bitstring. simpl. rewrite andb_true_iff. unfold is_bit.
  rewrite orb_true_iff, !Ascii.eqb_eq. tauto.
Qed.

(** Appending bits to the numeral of a positive number. *)
Lemma bin_bin_value_pos (s : string) (p : positive) :
  bitstring s = true -> bin (bin_value (Npos p) s) = pos_bin p ++ s.
Proof.
  revert p. induction s as [|c s IH]; intros p Hb; simpl.
  - now rewrite append_empty_r.
  - apply bitstring_cons in Hb as [[-> | ->] Hs]; simpl.
    + rewrite (IH (xO p) Hs). simpl. now rewrite append_assoc.
    + rewrite (IH (xI p) Hs). simpl. now rewrite append_assoc.
Qed.

Lemma format_b_bin_value (s : string) :
  s <> EmptyString -> bitstring s = true ->
  format_b (String.length s) (N.to_nat (bin_value 0 s)) = s.
Proof.
  induction s as [|c s IH]; intros Hne Hb; [congruence |].
  apply bitstring_cons in Hb as [[-> | ->] Hs].
  - simpl bin_value. destruct s as [|c' s'].
    + reflexivity.
    + assert (Hs' : String c' s' <> EmptyString) by discriminate.
      specialize (IH Hs' Hs). set (t := String c' s') in *.
      unfold format_b in *. rewrite N2Nat.id in *.
      set (b := bin (bin_value 0 t)) in *.
      assert (Hlen : String.length b <= String.length t).
      { apply (f_equal String.length) in IH.
        rewrite length_append, length_zeros in IH. lia. }
      change (String.length (String "0" t)) with (S (String.length t)).
      replace (S (String.length t) - String.length b)
        with (S (String.length t - String.length b)) by lia.
      cbn [zeros append]. f_equal. exact IH.
  - simpl bin_value. unfold format_b. rewrite N2Nat.id.
    rewrite (bin_bin_value_pos s 1 Hs). simpl.
    now rewrite Nat.sub_diag.
Qed.

Lemma bin_value_bound (s : string) (acc : N) :
  (bin_value acc s < (acc + 1) * 2 ^ N.of_nat (String.length s))%N.
Proof.
  revert acc. induction s as [|c s IH]; intro acc; simpl String.length.
  - simpl. lia.
  - simpl bin_value. specialize (IH (2 * acc + (if Ascii.eqb c "1" then 1 else 0))%N).
    rewrite Nat2N.inj_succ, N.pow_succ_r'.
    set (P := (2 ^ N.of_nat (String.length s))%N) in *.
    replace ((acc + 1) * (2 * P))%N with ((2 * acc + 2) * P)%N by ring.
    eapply N.lt_le_trans; [exact IH |].
    apply N.mul_le_mono_r. destruct (Ascii.eqb c "1"); lia.
Qed.

Lemma bin_value_lt_pow2 (s : string) :
  N.to_nat (bin_value 0 s) < 2 ^ String.length s.
Proof.
  pose proof (bin_value_bound s 0) as Hb.
  rewrite N.add_0_l, N.mul_1_l in Hb.
  replace (2 ^ String.length s) with (N.to_nat (2 ^ N.of_nat (String.length s))).
  - lia.
  - rewrite N2Nat.inj_pow, Nat2N.id. reflexivity.
Qed.

Lemma mock_db_bitstrings (k : nat) (s : string) :
  0 < k ->
  (In s (mock_db k (2 ^ k)) <-> String.length s = k /\ bitstring s = true).
Proof.
  intro Hk. unfold mock_db. rewrite in_map_iff. split.
  - intros [i [<- Hi]]. apply in_seq in Hi. split.
    + apply length_format_b; lia.
    + apply bitstring_format_b.
  - intros [Hlen Hb]. exists (N.to_nat (bin_value 0 s)). split.
    + rewrite <- Hlen. apply format_b_bin_value; [| exact Hb].
      intro E. subst s. simpl in Hlen. lia.
    + apply in_seq. pose proof (bin_value_lt_pow2 s) as Hlt.
      rewrite Hlen in Hlt. lia.
Qed.

(** X9.  With [2^k] entries on [k >= 1] qubits the mock database holds
    exactly the bit strings of length [k], each once: every [k]-bit target
    pattern is an entry, and nothing else is. *)
Theorem mock_db_all_bitstrings :
  forall (k : nat) (s : string),
    0 < k ->
    NoDup (mock_db k (2 ^ k))
    /\ (In s (mock_db k (2 ^ k)) <-> String.length s = k /\ bitstring s = true).
Proof.
  intros k s Hk. split; [apply mock_db_NoDup | now apply mock_db_bitstrings].
Qed.

Lemma mock_db_all_bitstrings_witness :
  NoDup (mock_db 4 (2 ^ 4))
  /\ (In "1011" (mock_db 4 (2 ^ 4)) <-> String.length "1011" = 4 /\ bitstring "1011" = true).
Proof. apply (@mock_db_all_bitstrings 4 "1011"). lia. Defined.

(** X10.  The feature vector of every search is an entry of the classical
    baseline's database (16 entries, four bits), so the returned counts
    have exactly the sixteen database keys. *)
Theorem feature_vector_in_database :
  forall (description attack_vector privilege_required : string)
         (start_time end_time : R),
    let fv := create_feature_vector description attack_vector privilege_required in
    In fv (mock_db 4 16)
    /\ dict_keys (fst (run_classical_search 4 fv 16 start_time end_time))
       = mock_db 4 16.
Proof.
  intros d a p st en fv.
  destruct (create_feature_vector_shape d a p) as [Hlen Hbits]. fold fv in Hlen, Hbits.
  assert (Hin : In fv (mock_db 4 16)).
  { change 16 with (2 ^ 4).
    apply mock_db_bitstrings; [lia | auto]. }
  split; [exact Hin |].
  unfold run_classical_search. cbn [fst].
  rewrite scan_mock_db, highlight_keys, dict_keys_ones. unfold dict_mem.
  now rewrite (dict_get_ones _ _ Hin).
Qed.

(* ------------------------------------------------------------------ *)
(** ** What the oracle does to a state *)

Lemma zero_positions_NoDup (pattern : list nat) (idx : nat) :
  NoDup (zero_positions pattern idx).
Proof.
  revert idx. induction pattern as [|bit rest IH]; intro idx; simpl; [constructor |].
  destruct (bit =? 0); [| apply IH].
  constructor; [| apply IH].
  rewrite zero_positions_In. lia.
Qed.

Lemma testbit_x_mask (qs : list nat) (i : nat) :
  NoDup qs -> Nat.testbit (x_mask qs) i = existsb (Nat.eqb i) qs.
Proof.
  induction 1 as [|q qs Hq _ IH]; [apply Nat.bits_0 |].
  unfold x_mask. cbn [fold_right existsb]. fold (x_mask qs).
  rewrite Nat.lxor_spec, IH, Nat.pow2_bits_eqb.
  destruct (Nat.eqb_spec q i) as [-> | Hne].
  - rewrite Nat.eqb_refl. simpl.
    destruct (existsb (Nat.eqb i) qs) eqn:E; [| reflexivity].
    apply existsb_exists in E as [y [Hy Eiy]]. apply Nat.eqb_eq in Eiy. subst y.
    contradiction.
  - destruct (Nat.eqb_spec i q) as [-> | _]; [contradiction | reflexivity].
Qed.

Lemma existsb_zero_positions (pattern : list nat) (i : nat) :
  existsb (Nat.eqb i) (zero_positions pattern 0) = (nth i pattern 1 =? 0).
Proof.
  destruct (existsb (Nat.eqb i) (zero_positions pattern 0)) eqn:E.
  - apply existsb_exists in E as [y [Hy Eiy]]. apply Nat.eqb_eq in Eiy. subst y.
    apply zero_positions_In in Hy as [_ Hn]. rewrite Nat.sub_0_r in Hn.
    symmetry. apply Nat.eqb_eq.
    apply (nth_error_nth pattern i 1) in Hn. exact Hn.
  - symmetry. apply Nat.eqb_neq. intro Hz.
    assert (Hin : In i (zero_positions pattern 0)).
    { apply zero_positions_In. rewrite Nat.sub_0_r. split; [lia |].
      destruct (nth_error pattern i) as [b |] eqn:En.
      - apply (nth_error_nth pattern i 1) in En. congruence.
      - apply nth_error_None in En. rewrite nth_overflow in Hz by exact En.
        discriminate. }
    assert (existsb (Nat.eqb i) (zero_positions pattern 0) = true); [| congruence].
    apply existsb_exists. exists i. split; [exact Hin | apply Nat.eqb_refl].
Qed.

Lemma controls_set_marked (k : nat) (pattern : list nat) (j : nat) :
  controls_set (seq 0 k) (Nat.lxor j (x_mask (zero_positions pattern 0)))
  = marked k pattern j.
Proof.
  unfold controls_set, marked.
  induction (seq 0 k) as [|idx l IH]; simpl; [reflexivity |].
  rewrite IH. f_equal.
  rewrite Nat.lxor_spec, testbit_x_mask by apply zero_positions_NoDup.
  rewrite existsb_zero_positions.
  destruct (Nat.testbit j idx), (nth idx pattern 1 =? 0); reflexivity.
Qed.

Section OracleAction.
Context {A Ang : Type} `{Amplitude A Ang}.

Lemma amp_permute (s : nat -> nat) (psi : list A) (j : nat) :
  j < List.length psi -> amp (permute s psi) j = amp psi (s j).
Proof. intro Hj. unfold permute. now rewrite amp_tabulate. Qed.

Lemma oracle_data_action (k : nat) (pattern : list nat) (psi : list A) (j : nat) :
  Forall (fun q => q < k) (zero_positions pattern 0) ->
  List.length psi = 2 ^ (k + 1) ->
  j < 2 ^ (k + 1) ->
  amp (apply_gates (oracle_data Ang k pattern) psi) j
  = if marked k pattern j then amp psi (flip_bit k j) else amp psi j.
Proof.
  intros Hzs Hlen Hj.
  set (zs := zero_positions pattern 0) in *.
  assert (Hzs' : Forall (fun q => q < k + 1) zs)
    by (eapply Forall_impl; [| exact Hzs]; simpl; intros; lia).
  assert (Hmask : x_mask zs < 2 ^ (k + 1)) by (now apply x_mask_lt).
  assert (Hnotin : ~ In k (seq 0 k)) by (rewrite in_seq; lia).
  unfold oracle_data. fold zs. rewrite !apply_gates_app.
  change (apply_gates [MultiControlledX (seq 0 k) k]) with (apply_mcx (seq 0 k) k).
  rewrite (@apply_x_layer _ _ _ (k + 1) zs psi Hlen Hzs').
  rewrite apply_mcx_permute.
  rewrite (@apply_x_layer _ _ _ (k + 1) zs);
    [| now rewrite !permute_length | exact Hzs'].
  rewrite !amp_permute; rewrite ?permute_length, ?Hlen;
    try (apply lxor_lt_pow2; assumption).
  - unfold mcx_map. subst zs. rewrite controls_set_marked.
    set (m := x_mask (zero_positions pattern 0)).
    destruct (marked k pattern j).
    + f_equal. unfold flip_bit.
      rewrite (Nat.lxor_comm (Nat.lxor j m) (2 ^ k)).
      rewrite (Nat.lxor_assoc (2 ^ k)), (Nat.lxor_assoc j).
      rewrite Nat.lxor_nilpotent, Nat.lxor_0_r. apply Nat.lxor_comm.
    + f_equal. now rewrite Nat.lxor_assoc, Nat.lxor_nilpotent, Nat.lxor_0_r.
  - apply mcx_map_lt; [lia |]. apply lxor_lt_pow2; assumption.
  - exact Hj.
Qed.

End OracleAction.

Lemma create_oracle_fits (Ang : Type) (k : nat) (s : string) :
  bitstring s = true -> String.length s <= k ->
  let pattern := pattern_bits (zeros (k - String.length s) ++ s) in
  create_oracle Ang k s = Ok (mkCircuit (k + 1) 0 (oracle_data Ang k pattern) [])
  /\ Forall (fun q => q < k) (zero_positions pattern 0).
Proof.
  intros Hb Hlen pattern.
  assert (Hp : List.length pattern <= k)
    by (unfold pattern; rewrite pattern_bits_length, length_append, length_zeros; lia).
  split.
  - pose proof (create_oracle_spec Ang k s Hb) as Hspec. simpl in Hspec.
    fold pattern in Hspec. now rewrite zero_positions_in_range in Hspec.
  - apply Forall_forall. intros q Hq. apply zero_positions_bound in Hq. lia.
Qed.

(** X11.  For a bit pattern that fits the search register, the oracle
    [create_oracle] builds acts on a state of the search qubits and the
    ancilla as follows: on every basis state whose search qubit [idx]
    agrees with character [idx] of the zero-filled pattern (the leftmost
    character belongs to qubit 0) it swaps the amplitude with that of the
    state whose ancilla bit is flipped; all other amplitudes stay. *)
Theorem oracle_marks_pattern :
  forall (A Ang : Type) (Amp : Amplitude A Ang)
         (k : nat) (target_pattern : string) (psi : list A) (j : nat),
    bitstring target_pattern = true ->
    String.length target_pattern <= k ->
    List.length psi = 2 ^ (k + 1) ->
    j < 2 ^ (k + 1) ->
    let pattern :=
      pattern_bits (zeros (k - String.length target_pattern) ++ target_pattern) in
    exists oracle : Circuit Ang,
      create_oracle Ang k target_pattern = Ok oracle
      /\ amp (apply_gates (data oracle) psi) j
         = if marked k pattern j then amp psi (flip_bit k j) else amp psi j.
Proof.
  intros A Ang Amp k s psi j Hb Hlen Hpsi Hj pattern.
  destruct (@create_oracle_fits Ang k s Hb Hlen) as [Hbuild Hzs].
  eexists. split; [exact Hbuild |].
  cbn [data]. now apply oracle_data_action.
Qed.

Lemma oracle_marks_pattern_witness :
  let pattern := pattern_bits (zeros (2 - String.length "10") ++ "10") in
  exists oracle : Circuit Empty_set,
    create_oracle Empty_set 2 "10" = Ok oracle
    /\ amp (apply_gates (data oracle) (init_state (A:=Q2) 3)) 1
       = if marked 2 pattern 1
         then amp (init_state (A:=Q2) 3) (flip_bit 2 1)
         else amp (init_state (A:=Q2) 3) 1.
Proof.
  apply (@oracle_marks_pattern Q2 Empty_set Q2_amplitude 2 "10" (init_state 3) 1);
    first [reflexivity | simpl; lia].
Defined.

(** X12.  Phase kickback: on a state whose ancilla is in the minus state
    (flipping the ancilla bit negates every amplitude), the oracle negates
    the amplitudes of the basis states that match the pattern and leaves
    all others as they are. *)
Theorem oracle_phase_flip :
  forall (A Ang : Type) (Amp : Amplitude A Ang)
         (k : nat) (target_pattern : string) (psi : list A) (j : nat),
    bitstring target_pattern = true ->
    String.length target_pattern <= k ->
    List.length psi = 2 ^ (k + 1) ->
    (forall i, i < 2 ^ (k + 1) -> amp psi (flip_bit k i) = Aopp (amp psi i)) ->
    j < 2 ^ (k + 1) ->
    let pattern :=
      pattern_bits (zeros (k - String.length target_pattern) ++ target_pattern) in
    exists oracle : Circuit Ang,
      create_oracle Ang k target_pattern = Ok oracle
      /\ amp (apply_gates (data oracle) psi) j
         = if marked k pattern j then Aopp (amp psi j) else amp psi j.
Proof.
  intros A Ang Amp k s psi j Hb Hlen Hpsi Hminus Hj pattern.
  destruct (@create_oracle_fits Ang k s Hb Hlen) as [Hbuild Hzs].
  eexists. split; [exact Hbuild |].
  cbn [data]. rewrite oracle_data_action by assumption.
  fold pattern. destruct (marked k pattern j); [now apply Hminus | reflexivity].
Qed.

Lemma oracle_phase_flip_witness :
  let psi := [mkQ2 (1 # 2) 0; mkQ2 (1 # 2) 0; mkQ2 (- 1 # 2) 0; mkQ2 (- 1 # 2) 0] in
  let pattern := pattern_bits (zeros (1 - String.length "1") ++ "1") in
  exists oracle : Circuit Empty_set,
    create_oracle Empty_set 1 "1" = Ok oracle
    /\ amp (apply_gates (data oracle) psi) 1
       = if marked 1 pattern 1 then Aopp (amp psi 1) else amp psi 1.
Proof.
  intro psi.
  apply (@oracle_phase_flip Q2 Empty_set Q2_amplitude 1 "1" psi 1);
    try reflexivity; try (simpl; lia).
  intros i Hi. destruct i as [|[|[|[|i]]]]; try reflexivity. simpl in Hi. lia.
Defined.

(* ------------------------------------------------------------------ *)
(** ** Patterns that are not bit strings *)

Lemma is_ascii_zeros (n : nat) :
  forallb is_ascii (list_ascii_of_string (zeros n)) = true.
Proof. induction n as [|n IH]; simpl; auto. Qed.

Lemma zfill_ascii (k : nat) (s : string) :
  forallb is_ascii (list_ascii_of_string s) = true ->
  forallb is_ascii (list_ascii_of_string (zfill k s)) = true.
Proof.
  intro Hs. unfold zfill. destruct (k <=? String.length s); [exact Hs |].
  destruct s as [|c rest]; [apply is_ascii_zeros |].
  destruct (Ascii.eqb c "+" || Ascii.eqb c "-")%bool.
  - simpl in Hs. apply andb_true_iff in Hs as [Hc Hrest].
    simpl. rewrite Hc. simpl.
    rewrite list_ascii_of_string_append, forallb_app, is_ascii_zeros. exact Hrest.
  - rewrite list_ascii_of_string_append, forallb_app, is_ascii_zeros. exact Hs.
Qed.

Lemma mapM_int_of_char_error (l : list ascii) :
  forallb is_ascii l = true ->
  (exists c, In c l /\ is_digit c = false) ->
  mapM int_of_char l = Raise ValueError.
Proof.
  induction l as [|c l IH]; intros Hascii [x [Hin Hx]]; [destruct Hin |].
  simpl in Hascii. apply andb_true_iff in Hascii as [Hc Hl].
  simpl. unfold int_of_char at 1. fold (is_digit c).
  destruct (is_digit c) eqn:Ec; simpl.
  - destruct Hin as [-> | Hin]; [congruence |].
    rewrite IH by eauto. reflexivity.
  - now rewrite Hc.
Qed.

(** X13.  If the target pattern is ASCII text and, zero-filled, holds a
    character that is not a decimal digit, [create_oracle] raises
    [ValueError] (from [int]) before any gate is placed, whatever the length
    of the pattern; and so does [run_grover_manual] on at least one search
    qubit and one iteration. *)
Theorem non_digit_pattern_raises :
  forall (Ang : Type) (simulator_run : Circuit Ang -> nat -> dict)
         (k : nat) (target_pattern : string) (iterations : nat),
    forallb is_ascii (list_ascii_of_string target_pattern) = true ->
    (exists c, In c (list_ascii_of_string (zfill k target_pattern))
               /\ is_digit c = false) ->
    create_oracle Ang k target_pattern = Raise ValueError
    /\ (0 < k -> 0 < iterations ->
        run_grover_manual simulator_run k target_pattern iterations
        = Raise ValueError).
Proof.
  intros Ang sim k s it Hascii Hbad.
  assert (Horacle : create_oracle Ang k s = Raise ValueError).
  { unfold create_oracle.
    now rewrite mapM_int_of_char_error by (try apply zfill_ascii; assumption). }
  split; [exact Horacle |].
  intros Hk Hit. unfold run_grover_manual, grover_circuit, qc_x, qc_h.
  rewrite reg_bits_search.
  replace (reg_bits (mkReg k 1)) with [k]
    by (unfold reg_bits; simpl; now rewrite Nat.add_0_r).
  rewrite broadcast_extend;
    [| discriminate
     | intros q [<- | []]; apply op_ok_single; [reflexivity | simpl; lia]].
  cbn [bind].
  rewrite broadcast_extend;
    [| discriminate
     | intros q [<- | []]; apply op_ok_single; [reflexivity | simpl; lia]].
  cbn [bind].
  rewrite broadcast_extend;
    [| now apply seq_nonempty
     | intros q Hq; apply in_seq in Hq; apply op_ok_single; [reflexivity | simpl; lia]].
  cbn [bind].
  destruct it as [|n]; [lia |].
  cbn [grover_loop]. unfold grover_iteration. rewrite Horacle. reflexivity.
Qed.

Lemma non_digit_pattern_raises_witness :
  create_oracle R 4 "10a1" = Raise ValueError
  /\ (0 < 4 -> 0 < 3 ->
      run_grover_manual (fun (_ : Circuit R) (_ : nat) => sampled_example) 4 "10a1" 3
      = Raise ValueError).
Proof.
  apply (@non_digit_pattern_raises R (fun (_ : Circuit R) (_ : nat) => sampled_example)
           4 "10a1" 3).
  - reflexivity.
  - exists "a"%char. split; [simpl; tauto | reflexivity].
Defined.

(** X14.  With zero iterations the target pattern is never looked at: on at
    least one search qubit [run_grover_manual] succeeds for every string,
    with the circuit that prepares the ancilla, puts a Hadamard on every
    search qubit and measures search qubit [i] into classical bit [i]. *)
Theorem run_grover_zero_iterations :
  forall (Ang : Type) (simulator_run : Circuit Ang -> nat -> dict)
         (k : nat) (target_pattern : string),
    0 < k ->
    run_grover_manual simulator_run k target_pattern 0
    = Ok (simulator_run
            (mkCircuit (k + 1) k
               ([PauliX k; Hadamard k] ++ map Hadamard (seq 0 k))
               (combine (seq 0 k) (seq 0 k)))
            1024).
Proof.
  intros Ang sim k s Hk. unfold run_grover_manual, grover_circuit, qc_x, qc_h.
  rewrite reg_bits_search.
  replace (reg_bits (mkReg k 1)) with [k]
    by (unfold reg_bits; simpl; now rewrite Nat.add_0_r).
  rewrite broadcast_extend;
    [| discriminate
     | intros q [<- | []]; apply op_ok_single; [reflexivity | simpl; lia]].
  cbn [bind].
  rewrite broadcast_extend;
    [| discriminate
     | intros q [<- | []]; apply op_ok_single; [reflexivity | simpl; lia]].
  cbn [bind].
  rewrite broadcast_extend;
    [| now apply seq_nonempty
     | intros q Hq; apply in_seq in Hq; apply op_ok_single; [reflexivity | simpl; lia]].
  cbn [bind grover_loop].
  unfold qc_measure. simpl num_qubits. simpl num_clbits.
  rewrite Nat.eqb_refl.
  assert (Hq : forallb (fun q => q <? k + 1) (seq 0 k) = true).
  { apply forallb_forall. intros q Hq. apply in_seq in Hq. apply Nat.ltb_lt. lia. }
  assert (Hc : forallb (fun p => p <? k) (seq 0 k) = true).
  { apply forallb_forall. intros q Hq'. apply in_seq in Hq'. apply Nat.ltb_lt. lia. }
  rewrite Hq, Hc. reflexivity.
Qed.

Lemma run_grover_zero_iterations_witness :
  run_grover_manual (fun (_ : Circuit R) (_ : nat) => sampled_example) 2 "not a pattern" 0
  = Ok ((fun (_ : Circuit R) (_ : nat) => sampled_example)
          (mkCircuit (2 + 1) 2
             ([PauliX 2; Hadamard 2] ++ map Hadamard (seq 0 2))
             (combine (seq 0 2) (seq 0 2)))
          1024).
Proof.
  apply (@run_grover_zero_iterations R (fun (_ : Circuit R) (_ : nat) => sampled_example)
           2 "not a pattern"). lia.
Defined.

(* ------------------------------------------------------------------ *)
(** ** The bars of the two charts *)

Lemma item_leb_total (x y : string * nat) :
  item_leb x y = false -> item_leb y x = true.
Proof.
  unfold item_leb. rewrite (String.compare_antisym (fst y) (fst x)).
  destruct (String.compare (fst x) (fst y)); simpl; try discriminate; auto.
  intro E. apply Nat.leb_gt in E. apply Nat.leb_le. lia.
Qed.

Lemma insert_item_perm (x : string * nat) (l : dict) :
  Permutation (insert_item x l) (x :: l).
Proof.
  induction l as [|y l IH]; simpl; [apply Permutation_refl |].
  destruct (item_leb x y); [apply Permutation_refl |].
  eapply perm_trans; [apply perm_skip, IH | apply perm_swap].
Qed.

Lemma sorted_items_perm (data : dict) : Permutation (sorted_items data) data.
Proof.
  induction data as [|x data IH]; simpl; [constructor |].
  eapply perm_trans; [apply insert_item_perm | now apply perm_skip].
Qed.

Lemma insert_item_sorted (x : string * nat) (l : dict) :
  Sorted (fun a b => item_leb a b = true) l ->
  Sorted (fun a b => item_leb a b = true) (insert_item x l).
Proof.
  induction l as [|y l IH]; intro Hs; simpl.
  - repeat constructor.
  - destruct (item_leb x y) eqn:E.
    + constructor; [exact Hs | constructor; exact E].
    + apply Sorted_inv in Hs. destruct Hs as [Hs Hhd].
      constructor; [now apply IH |].
      destruct l as [|z l]; simpl.
      * constructor. now apply item_leb_total.
      * destruct (item_leb x z); constructor.
        -- now apply item_leb_total.
        -- now apply HdRel_inv in Hhd.
Qed.

Lemma sorted_items_sorted (data : dict) :
  Sorted (fun a b => item_leb a b = true) (sorted_items data).
Proof.
  induction data as [|x data IH]; simpl; [constructor |].
  now apply insert_item_sorted.
Qed.

Lemma item_leb_keys (x y : string * nat) :
  item_leb x y = true -> String.leb (fst x) (fst y) = true.
Proof.
  unfold item_leb, String.leb.
  destruct (String.compare (fst x) (fst y)); auto.
Qed.

Lemma plot_histogram_items (data : dict) :
  map (fun b => (bar_key b, bar_value b)) (plot_histogram data) = sorted_items data.
Proof.
  unfold plot_histogram. rewrite map_map. simpl.
  rewrite <- (map_id (sorted_items data)) at 2.
  apply map_ext. now intros [k v].
Qed.

(** X15.  The chart has one bar per entry of the counts, carrying the
    entry's key and count, and the bars stand in ascending order of their
    keys (the order of Python's string comparison), whatever order the
    counts were inserted in. *)
Theorem plot_histogram_sorted_bars :
  forall data : dict,
    Permutation (map (fun b => (bar_key b, bar_value b)) (plot_histogram data)) data
    /\ Sorted (fun b1 b2 => String.leb (bar_key b1) (bar_key b2) = true)
              (plot_histogram data).
Proof.
  intro data. split.
  - rewrite plot_histogram_items. apply sorted_items_perm.
  - unfold plot_histogram.
    generalize (list_max_nat (map snd (sorted_items data))). intro highest.
    pose proof (sorted_items_sorted data) as Hs.
    induction Hs as [|x l Hs IH Hhd]; simpl; [constructor |].
    constructor; [exact IH |].
    destruct Hhd as [|y l Hxy]; simpl; constructor.
    simpl. now apply item_leb_keys.
Qed.

Lemma list_max_nat_perm (l l' : list nat) :
  Permutation l l' -> list_max_nat l = list_max_nat l'.
Proof.
  unfold list_max_nat.
  induction 1; simpl; try lia.
Qed.

Lemma list_max_nat_is (l : list nat) (m : nat) :
  In m l -> (forall x, In x l -> x <= m) -> list_max_nat l = m.
Proof.
  unfold list_max_nat. intros Hin Hle.
  assert (Hub : fold_right Nat.max 0 l <= m).
  { clear Hin. induction l as [|x l IH]; simpl; [lia |].
    pose proof (Hle x (or_introl eq_refl)).
    assert (fold_right Nat.max 0 l <= m) by (apply IH; intros; apply Hle; now right).
    lia. }
  assert (Hlb : m <= fold_right Nat.max 0 l).
  { clear Hle Hub. induction l as [|x l IH]; simpl; [destruct Hin |].
    destruct Hin as [-> | Hin]; [lia | specialize (IH Hin); lia]. }
  lia.
Qed.

Lemma In_dict_get (d : dict) (k : string) (v : nat) :
  NoDup (dict_keys d) -> In (k, v) d -> dict_get d k = Some v.
Proof.
  induction d as [|[k' v'] d IH]; simpl; [tauto |].
  intros Hnd [E | Hin].
  - inversion E; subst. now rewrite String.eqb_refl.
  - inversion Hnd as [|? ? Hk' Hnd']; subst.
    destruct (String.eqb k' k) eqn:E.
    + apply String.eqb_eq in E; subst k'.
      exfalso. apply Hk'. unfold dict_keys. now apply (in_map fst) in Hin.
    + now apply IH.
Qed.

Lemma dict_get_In (d : dict) (k : string) (v : nat) :
  dict_get d k = Some v -> In (k, v) d.
Proof.
  induction d as [|[k' v'] d IH]; simpl; [discriminate |].
  destruct (String.eqb k' k) eqn:E.
  - apply String.eqb_eq in E; subst k'. intro E'. inversion E'. now left.
  - intro E'. right. now apply IH.
Qed.

(** When one key holds a positive count that is at least twice every other
    count, its bar is the only outlined one. *)
Lemma plot_histogram_single_peak (d : dict) (t : string) (m : nat) :
  NoDup (dict_keys d) ->
  dict_get d t = Some m ->
  0 < m ->
  (forall k c, k <> t -> dict_get d k = Some c -> 2 * c <= m) ->
  forall b, In b (plot_histogram d) ->
    (bar_highlighted b = true <-> bar_key b = t).
Proof.
  intros Hnd Ht Hm Hothers b Hb.
  assert (Hmax : list_max_nat (map snd (sorted_items d)) = m).
  { rewrite (list_max_nat_perm (Permutation_map snd (sorted_items_perm d))).
    apply list_max_nat_is.
    - apply dict_get_In in Ht. now apply (in_map snd) in Ht.
    - intros x Hx. apply in_map_iff in Hx. destruct Hx as [[k c] [<- Hin]]. simpl.
      apply In_dict_get in Hin; [| exact Hnd].
      destruct (string_dec k t) as [-> | Hne].
      + rewrite Ht in Hin. inversion Hin. lia.
      + specialize (Hothers k c Hne Hin). lia. }
  unfold plot_histogram in Hb. rewrite Hmax in Hb.
  apply in_map_iff in Hb. destruct Hb as [[k c] [<- Hin]]. simpl.
  apply (Permutation_in _ (sorted_items_perm d)) in Hin.
  apply In_dict_get in Hin; [| exact Hnd].
  rewrite Nat.ltb_lt.
  destruct (string_dec k t) as [-> | Hne].
  - rewrite Ht in Hin. inversion Hin; subst. split; [reflexivity | lia].
  - specialize (Hothers k c Hne Hin). split; [lia | contradiction].
Qed.

Lemma dict_set_keys_NoDup (d : dict) (k : string) (v : nat) :
  NoDup (dict_keys d) -> NoDup (dict_keys (dict_set d k v)).
Proof.
  intro Hnd. destruct (dict_get d k) as [c |] eqn:E.
  - rewrite dict_set_keys_present by congruence. exact Hnd.
  - rewrite dict_set_absent by exact E. unfold dict_keys. rewrite map_app. simpl.
    apply NoDup_app; [exact Hnd | repeat constructor; simpl; tauto |].
    intros x Hx [<- | []].
    apply dict_get_present in Hx. congruence.
Qed.

(** X16.  In the chart of the classical counts exactly the target's bar is
    outlined, for every target and database size: the target's count 4
    exceeds half the maximum and the other counts, all 1, do not. *)
Theorem classical_chart_outlines_target :
  forall (k : nat) (target_pattern : string) (database_size : nat)
         (start_time end_time : R) (b : Bar),
    In b (plot_histogram
            (fst (run_classical_search k target_pattern database_size
                                       start_time end_time))) ->
    (bar_highlighted b = true <-> bar_key b = target_pattern).
Proof.
  intros k t n st en b.
  unfold run_classical_search. cbn [fst]. rewrite scan_mock_db.
  set (ones := map (fun e => (e, 1)) (mock_db k n)).
  assert (Hnd : NoDup (dict_keys ones))
    by (unfold ones; rewrite dict_keys_ones; apply mock_db_NoDup).
  assert (Hones : forall key c, dict_get ones key = Some c -> c = 1).
  { intros key c E. apply dict_get_In in E. unfold ones in E.
    apply in_map_iff in E. destruct E as [e [E _]]. now inversion E. }
  apply plot_histogram_single_peak with (m := 4).
  - unfold highlight. destruct (dict_get ones t); now apply dict_set_keys_NoDup.
  - unfold highlight. destruct (dict_get ones t) as [c |] eqn:E.
    + rewrite (Hones _ _ E). apply dict_get_set_same.
    + apply dict_get_set_same.
  - lia.
  - intros key c Hne Hget. unfold highlight in Hget.
    destruct (dict_get ones t);
      rewrite dict_get_set_other in Hget by congruence;
      apply Hones in Hget; lia.
Qed.

Lemma classical_chart_outlines_target_witness :
  bar_highlighted (mkBar "1011" (vulnerability_label "1011") 4 true) = true
  <-> bar_key (mkBar "1011" (vulnerability_label "1011") 4 true) = "1011".
Proof.
  apply (@classical_chart_outlines_target 4 "1011" 16 0%R 1%R
           (mkBar "1011" (vulnerability_label "1011") 4 true)).
  unfold run_classical_search. cbn [fst]. vm_compute. tauto.
Defined.

(** X17.  In the chart of the quantum counts that [run_search] shows,
    exactly the target's bar is outlined, whatever the simulator sampled
    (as long as one sampled count is positive): the forced count of the
    target is ten times the highest sampled count, so no other bin gets
    above half the maximum, not even the outcome that was sampled most. *)
Theorem quantum_chart_outlines_target :
  forall (sampled : dict) (feature_vector : string) (b : Bar),
    NoDup (dict_keys sampled) ->
    (exists k c, dict_get sampled k = Some c /\ 0 < c) ->
    In b (plot_histogram (force_target sampled feature_vector)) ->
    (bar_highlighted b = true <-> bar_key b = feature_vector).
Proof.
  intros sampled fv b Hnd Hpos.
  pose proof (list_max_nat_positive sampled Hpos) as Hh.
  apply plot_histogram_single_peak
    with (m := list_max_nat (dict_values sampled) * 10).
  - unfold force_target.
    destruct (dict_mem sampled fv); repeat apply dict_set_keys_NoDup; exact Hnd.
  - rewrite force_target_get_target.
    destruct sampled; [destruct Hpos as [k [c [E _]]]; discriminate | reflexivity].
  - lia.
  - intros key c Hne Hget. rewrite force_target_get_other in Hget by exact Hne.
    apply dict_get_le_max in Hget. lia.
Qed.

Lemma quantum_chart_outlines_target_witness :
  bar_highlighted (mkBar "1011" (vulnerability_label "1011") (985 * 10) true) = true
  <-> bar_key (mkBar "1011" (vulnerability_label "1011") (985 * 10) true) = "1011".
Proof.
  apply (@quantum_chart_outlines_target sampled_example "1011"
           (mkBar "1011" (vulnerability_label "1011") (985 * 10) true)).
  - repeat constructor; simpl; intuition discriminate.
  - exists "1101", 985. split; [reflexivity | lia].
  - vm_compute. tauto.
Defined.

(* ------------------------------------------------------------------ *)
(** ** The circuit [run_grover_manual] hands to the simulator *)

Lemma diffuser_data_length (Ang : Type) (k : nat) :
  List.length (diffuser_data Ang k) = 4 * k + 3.
Proof.
  unfold diffuser_data. rewrite !length_app, !length_map, !length_seq. simpl. lia.
Qed.

Lemma oracle_data_length (Ang : Type) (k : nat) (pattern : list nat) :
  List.length (oracle_data Ang k pattern)
  = 2 * List.length (zero_positions pattern 0) + 1.
Proof.
  unfold oracle_data. rewrite !length_app, !length_map. simpl. lia.
Qed.

Lemma concat_repeat_length (X : Type) (l : list X) (n : nat) :
  List.length (List.concat (repeat l n)) = n * List.length l.
Proof.
  induction n as [|n IH]; simpl; [reflexivity |].
  rewrite length_app, IH. reflexivity.
Qed.

(** X18.  For a bit pattern that fits the [k >= 1] search qubits,
    [run_grover_manual] succeeds for every iteration count: it calls the
    simulator once, with 1024 shots, on a well-formed circuit of [k + 1]
    qubits and [k] classical bits that measures search qubit [i] into
    classical bit [i] and holds [k + 2 + iterations * (2 z + 4 k + 4)]
    gates, [z] being the number of zeros of the padded pattern. *)
Theorem run_grover_manual_circuit :
  forall (Ang : Type) (simulator_run : Circuit Ang -> nat -> dict)
         (k : nat) (target_pattern : string) (iterations : nat),
    0 < k ->
    bitstring target_pattern = true ->
    String.length target_pattern <= k ->
    let pattern :=
      pattern_bits (zeros (k - String.length target_pattern) ++ target_pattern) in
    let z := List.length (zero_positions pattern 0) in
    exists qc : Circuit Ang,
      run_grover_manual simulator_run k target_pattern iterations
      = Ok (simulator_run qc 1024)
      /\ circuit_ok qc = true
      /\ num_qubits qc = k + 1
      /\ num_clbits qc = k
      /\ measures qc = combine (seq 0 k) (seq 0 k)
      /\ List.length (data qc) = k + 2 + iterations * (2 * z + 4 * k + 4)
      /\ z <= k.
Proof.
  intros Ang sim k s it Hk Hb Hlen pattern z.
  pose proof (@grover_circuit_succeeds Ang k s it Hk Hb Hlen) as Hbuild.
  fold pattern in Hbuild.
  pose proof (grover_circuit_ok _ _ _ Hbuild) as [Hok [Hn Hm]].
  eexists. split; [| split; [exact Hok | split; [exact Hn | split; [exact Hm |]]]].
  - unfold run_grover_manual. rewrite Hbuild. reflexivity.
  - split; [reflexivity |]. split.
    + cbn [data]. unfold grover_data.
      rewrite !length_app, length_map, length_seq, concat_repeat_length, length_app,
        oracle_data_length, diffuser_data_length.
      fold z. simpl. lia.
    + assert (Hp : List.length pattern <= k)
        by (unfold pattern; rewrite pattern_bits_length, length_append, length_zeros; lia).
      assert (Hnd : NoDup (zero_positions pattern 0)) by apply zero_positions_NoDup.
      assert (Hincl : incl (zero_positions pattern 0) (seq 0 k)).
      { intros q Hq. apply zero_positions_bound in Hq. apply in_seq. lia. }
      pose proof (NoDup_incl_length Hnd Hincl) as Hle.
      rewrite length_seq in Hle. exact Hle.
Qed.

Lemma run_grover_manual_circuit_witness :
  let pattern := pattern_bits (zeros (4 - String.length "1011") ++ "1011") in
  let z := List.length (zero_positions pattern 0) in
  exists qc : Circuit R,
    run_grover_manual (fun (_ : Circuit R) (_ : nat) => sampled_example) 4 "1011" 3
    = Ok ((fun (_ : Circuit R) (_ : nat) => sampled_example) qc 1024)
    /\ circuit_ok qc = true
    /\ num_qubits qc = 4 + 1
    /\ num_clbits qc = 4
    /\ measures qc = combine (seq 0 4) (seq 0 4)
    /\ List.length (data qc) = 4 + 2 + 3 * (2 * z + 4 * 4 + 4)
    /\ z <= 4.
Proof.
  apply (@run_grover_manual_circuit R (fun (_ : Circuit R) (_ : nat) => sampled_example)
           4 "1011" 3); [lia | reflexivity | simpl; lia].
Defined.

(* ------------------------------------------------------------------ *)
(** ** Patterns of decimal digits *)

Lemma is_digit_not_sign (c : ascii) :
  is_digit c = true -> (Ascii.eqb c "+" || Ascii.eqb c "-")%bool = false.
Proof.
  intro Hd. destruct (Ascii.eqb c "+") eqn:E1.
  - apply Ascii.eqb_eq in E1. subst c. discriminate.
  - destruct (Ascii.eqb c "-") eqn:E2; [| reflexivity].
    apply Ascii.eqb_eq in E2. subst c. discriminate.
Qed.

Lemma zfill_digits (k : nat) (s : string) :
  digits s = true -> zfill k s = zeros (k - String.length s) ++ s.
Proof.
  intro Hd. unfold zfill. destruct (k <=? String.length s) eqn:E.
  - apply Nat.leb_le in E. replace (k - String.length s) with 0 by lia. reflexivity.
  - destruct s as [|c rest]; [now rewrite append_empty_r |].
    unfold digits in Hd. simpl in Hd. apply andb_true_iff in Hd as [Hc _].
    now rewrite (is_digit_not_sign c Hc).
Qed.

Lemma length_binarize (s : string) : String.length (binarize s) = String.length s.
Proof. induction s as [|c s IH]; simpl; congruence. Qed.

Lemma bitstring_binarize (s : string) : bitstring (binarize s) = true.
Proof.
  unfold bitstring. induction s as [|c s IH]; simpl; [reflexivity |].
  rewrite IH, andb_true_r. unfold binarize_char.
  destruct (Ascii.eqb c "0"); reflexivity.
Qed.

Lemma mapM_int_of_char_digits (l : list ascii) :
  forallb is_digit l = true ->
  mapM int_of_char l = Ok (map (fun c => nat_of_ascii c - 48) l).
Proof.
  induction l as [|c l IH]; simpl; [reflexivity |].
  intro Hd. apply andb_true_iff in Hd as [Hc Hl].
  unfold int_of_char at 1. fold (is_digit c). rewrite Hc. cbn [bind].
  rewrite (IH Hl). reflexivity.
Qed.

Lemma digit_zero_test (c : ascii) :
  is_digit c = true ->
  (nat_of_ascii c - 48 =? 0) = (bit_value (binarize_char c) =? 0).
Proof.
  intro Hd. unfold binarize_char. destruct (Ascii.eqb c "0") eqn:E.
  - apply Ascii.eqb_eq in E. subst c. reflexivity.
  - change (bit_value "1" =? 0) with false. apply Nat.eqb_neq. intro Hz.
    unfold is_digit in Hd. apply andb_true_iff in Hd as [Hlo _].
    apply Nat.leb_le in Hlo.
    assert (Hn : nat_of_ascii c = 48) by lia.
    apply (f_equal ascii_of_nat) in Hn. rewrite ascii_nat_embedding in Hn.
    subst c. discriminate.
Qed.

Lemma flip_zero_bits_ext (Ang : Type) (q : Register) (p p' : list nat) (idx : nat)
      (qc : Circuit Ang) :
  map (fun b => b =? 0) p = map (fun b => b =? 0) p' ->
  flip_zero_bits q p idx qc = flip_zero_bits q p' idx qc.
Proof.
  revert p' idx qc. induction p as [|b p IH]; intros [|b' p'] idx qc E;
    try discriminate; [reflexivity |].
  simpl in E. inversion E as [[Eb Ep]]. simpl. rewrite Eb.
  destruct (if b' =? 0 then _ else _) as [qc' | e]; cbn [bind]; [| reflexivity].
  now apply IH.
Qed.

(** X19.  [create_oracle] does not insist on binary digits: in a pattern of
    decimal digits every digit other than 0 is treated as 1, so the result
    (the oracle, or the error for a pattern that is too long) is the one of
    the pattern with those digits replaced by 1. *)
Theorem create_oracle_reads_digits_as_bits :
  forall (Ang : Type) (k : nat) (target_pattern : string),
    digits target_pattern = true ->
    create_oracle Ang k target_pattern
    = create_oracle Ang k (binarize target_pattern).
Proof.
  intros Ang k s Hd.
  assert (Hmaps :
    map (fun b => b =? 0)
        (map (fun c => nat_of_ascii c - 48)
             (list_ascii_of_string (zeros (k - String.length s) ++ s)))
    = map (fun b => b =? 0)
          (map bit_value
               (list_ascii_of_string (zeros (k - String.length s) ++ binarize s)))).
  { rewrite !list_ascii_of_string_append, !map_app. f_equal.
    - generalize (k - String.length s). intro n.
      induction n as [|n IH]; simpl; [reflexivity | now rewrite IH].
    - unfold digits in Hd. clear k.
      induction s as [|c s IH]; simpl; [reflexivity |].
      simpl in Hd. apply andb_true_iff in Hd as [Hc Hs].
      rewrite (digit_zero_test c Hc), (IH Hs). reflexivity. }
  unfold create_oracle.
  rewrite (zfill_digits k s Hd), (@zfill_bitstring k (binarize s) (bitstring_binarize s)),
    length_binarize.
  rewrite mapM_int_of_char_digits.
  2:{ rewrite list_ascii_of_string_append, forallb_app.
      apply andb_true_iff. split; [| exact Hd].
      clear. induction (k - String.length s) as [|n IH]; simpl; auto. }
  rewrite mapM_int_of_char_bits
    by (apply bitstring_append; [apply bitstring_zeros | apply bitstring_binarize]).
  cbn [bind].
  rewrite (@flip_zero_bits_ext Ang _ _ _ 0 (QuantumCircuit Ang (k + 1) 0) Hmaps).
  destruct (flip_zero_bits _ _ 0 (QuantumCircuit Ang (k + 1) 0)) as [qc1 | e];
    cbn [bind]; [| reflexivity].
  destruct (reg_get (mkReg k 1) 0) as [anc0 | e]; cbn [bind]; [| reflexivity].
  destruct (qc_mcx _ anc0 qc1) as [qc2 | e]; cbn [bind]; [| reflexivity].
  apply flip_zero_bits_ext. exact Hmaps.
Qed.

Lemma create_oracle_reads_digits_as_bits_witness :
  create_oracle Empty_set 4 "1702" = create_oracle Empty_set 4 (binarize "1702").
Proof.
  apply (@create_oracle_reads_digits_as_bits Empty_set 4 "1702"). reflexivity.
Defined.

(* ------------------------------------------------------------------ *)
(** ** The outcome distribution of Lab 5 *)

Section TwoQubitStates.
Context {A Ang : Type} `{Amplitude A Ang}.

Lemma apply_h_0_two_qubits (a b c d : A) :
  apply_h 0 [a; b; c; d]
  = [Arsqrt2 (Aadd a b); Arsqrt2 (Asub a b); Arsqrt2 (Aadd c d); Arsqrt2 (Asub c d)].
Proof. reflexivity. Qed.

Lemma apply_rz_0_two_qubits (theta : Ang) (a b c d : A) :
  apply_rz theta 0 [a; b; c; d]
  = [Arz theta false a; Arz theta true b; Arz theta false c; Arz theta true d].
Proof. reflexivity. Qed.

Lemma init_state_two_qubits : init_state (A:=A) 2 = [Aone; Azero; Azero; Azero].
Proof. reflexivity. Qed.

End TwoQubitStates.

(** Hadamard, a rotation about Z and Hadamard again on qubit 0, measured
    into classical bit 0 of two: the outcome is 0 with probability
    [cos^2 (theta/2)] and 1 with probability [sin^2 (theta/2)]; classical
    bit 1 is never written. *)
Lemma interference_probabilities (theta : R) :
  let qc := mkCircuit 2 2 [Hadamard 0; RotationZ theta 0; Hadamard 0] [(0, 0)] in
  let psi := apply_gates (data qc) (init_state 2) in
  outcome_probability qc psi "00" = (cos (theta / 2) * cos (theta / 2), 0)%R
  /\ outcome_probability qc psi "01" = (sin (theta / 2) * sin (theta / 2), 0)%R
  /\ outcome_probability qc psi "10" = (0, 0)%R
  /\ outcome_probability qc psi "11" = (0, 0)%R.
Proof.
  intros qc psi.
  assert (Hpsi : psi = [ (cos (theta / 2), 0)%R; (0, - sin (theta / 2))%R;
                         (0, 0)%R; (0, 0)%R ]).
  { unfold psi, qc. cbn [data].
    change (apply_gates [Hadamard 0; RotationZ theta 0; Hadamard 0] (init_state 2))
      with (apply_h 0 (apply_rz theta 0 (apply_h 0 (init_state (A:=C) 2)))).
    rewrite init_state_two_qubits, apply_h_0_two_qubits, apply_rz_0_two_qubits,
      apply_h_0_two_qubits.
    cbn [Arsqrt2 Aadd Asub Arz Aone Azero C_amplitude].
    unfold Cscale, Cadd, Csub, Cmul, rz_phase. cbn [fst snd].
    pose proof rsqrt2_sqr as Hr. revert Hr.
    generalize (/ sqrt 2)%R (cos (theta / 2)) (sin (theta / 2)).
    intros r c s Hr.
    assert (Hr2 : (r ^ 2 = / 2)%R) by (rewrite <- Hr; ring).
    repeat f_equal.
    all: ring_simplify; try rewrite Hr2; lra. }
  rewrite Hpsi.
  unfold outcome_probability, qc.
  repeat split.
  all: cbn; unfold Cadd, Cnorm2; cbn [fst snd]; apply (f_equal2 pair); ring.
Qed.

Lemma cos_5PI6 : cos (5 * PI / 6) = (- (sqrt 3 / 2))%R.
Proof.
  replace (5 * PI / 6)%R with (- (PI / 6) + PI)%R by lra.
  rewrite neg_cos, cos_neg, cos_PI6. reflexivity.
Qed.

Lemma half_angle_5PI6 :
  (cos (5 * PI / 6 / 2) * cos (5 * PI / 6 / 2) = (2 - sqrt 3) / 4
   /\ sin (5 * PI / 6 / 2) * sin (5 * PI / 6 / 2) = (2 + sqrt 3) / 4)%R.
Proof.
  pose proof (cos_2a_cos (5 * PI / 6 / 2)) as Hc.
  replace (2 * (5 * PI / 6 / 2))%R with (5 * PI / 6)%R in Hc by lra.
  rewrite cos_5PI6 in Hc.
  pose proof (sin2_cos2 (5 * PI / 6 / 2)) as Hs. unfold Rsqr in Hs.
  split; lra.
Qed.

(** X20.  The circuit of Lab 5 is built without error and is well formed;
    run from the all-zero state it reads [01] (qubit 0 measured as 1) with
    probability [(2 + sqrt 3) / 4] and [00] with probability
    [(2 - sqrt 3) / 4]: the two rotations add up to [5 PI / 6], and the
    second classical bit, never written, stays 0. *)
Theorem multiple_rz_gates_distribution :
  exists (qc : Circuit R) (psi : list C),
    multiple_rz_gates = Ok qc
    /\ simulate qc = Ok psi
    /\ distribution qc psi
       = [ ("00", ((2 - sqrt 3) / 4, 0)%R); ("01", ((2 + sqrt 3) / 4, 0)%R);
           ("10", (0, 0)%R); ("11", (0, 0)%R) ].
Proof.
  eexists. eexists. split; [apply multiple_rz_gates_circuit |].
  split; [reflexivity |].
  cbn [data num_qubits]. rewrite multiple_rz_gates_single_rotation.
  destruct (interference_probabilities (5 * PI / 6)) as [H00 [H01 [H10 H11]]].
  cbn [data] in H00, H01, H10, H11.
  destruct half_angle_5PI6 as [Hcos Hsin].
  rewrite Hcos in H00. rewrite Hsin in H01.
  unfold distribution. cbn [num_clbits].
  change (seq 0 (2 ^ 2)) with [0; 1; 2; 3]. cbn [map].
  change (format_b 2 0) with "00". change (format_b 2 1) with "01".
  change (format_b 2 2) with "10". change (format_b 2 3) with "11".
  repeat f_equal.
  - rewrite <- H00. reflexivity.
  - rewrite <- H01. reflexivity.
  - rewrite <- H10. reflexivity.
  - rewrite <- H11. reflexivity.
Qed.

(* ------------------------------------------------------------------ *)
(** ** Every four-bit target *)

Lemma grover_four_exact (v : nat) :
  v < 16 ->
  exists (qc : Circuit Empty_set) (psi : list Q2),
    grover_circuit Empty_set 4 (format_b 4 v) 3 = Ok qc
    /\ grover_circuit R 4 (format_b 4 v) 3 = Ok (circuit_cast qc)
    /\ simulate qc = Ok psi
    /\ map (fun w => outcome_probability qc psi (format_b 4 w)) (seq 0 16)
       = map (fun w => if String.eqb (format_b 4 w) (reverse_string (format_b 4 v))
                       then mkQ2 (63001 # 65536) 0
                       else mkQ2 (169 # 65536) 0)
             (seq 0 16).
Proof.
  intro Hv.
  do 16 (destruct v as [|v];
         [eexists; eexists;
          split; [vm_compute; reflexivity |];
          split; [vm_compute; reflexivity |];
          split; [vm_compute; reflexivity |];
          vm_compute; reflexivity |]).
  lia.
Qed.

Lemma four_bits_format_b (s : string) :
  bitstring s = true -> String.length s = 4 ->
  exists v, v < 16 /\ s = format_b 4 v.
Proof.
  intros Hb Hlen. exists (N.to_nat (bin_value 0 s)). split.
  - pose proof (bin_value_lt_pow2 s) as Hlt. rewrite Hlen in Hlt. exact Hlt.
  - rewrite <- Hlen at 1. symmetry. apply format_b_bin_value; [| exact Hb].
    intro E. subst s. discriminate.
Qed.

(** X21.  On the four search qubits of the application, with the computed
    three iterations, the circuit of [run_grover_manual] amplifies the
    target read backwards, for every four-bit target: the outcome that is
    the reversed target has probability 63001/65536 and each of the other
    fifteen has 169/65536.  The target itself is the amplified outcome
    exactly when it reads the same in both directions. *)
Theorem grover_amplifies_reversed_target :
  forall target_pattern : string,
    bitstring target_pattern = true ->
    String.length target_pattern = 4 ->
    exists (qc : Circuit R) (psi : list C),
      grover_circuit R 4 target_pattern (Z.to_nat (grover_iterations 4)) = Ok qc
      /\ simulate qc = Ok psi
      /\ forall outcome : string,
           bitstring outcome = true -> String.length outcome = 4 ->
           outcome_probability qc psi outcome
           = ((if String.eqb outcome (reverse_string target_pattern)
               then 63001 / 65536 else 169 / 65536)%R, 0%R).
Proof.
  intros s Hb Hlen. rewrite grover_iterations_4.
  destruct (four_bits_format_b s Hb Hlen) as [v [Hv ->]].
  destruct (grover_four_exact Hv) as [qc [psi [_ [Hbuild [Hsim Hdist]]]]].
  exists (circuit_cast qc), (map Q2toC psi).
  split; [exact Hbuild |].
  split; [apply simulate_cast; exact Hsim |].
  intros t Htb Htlen.
  destruct (four_bits_format_b t Htb Htlen) as [w [Hw ->]].
  rewrite outcome_probability_cast.
  assert (Hin : In w (seq 0 16)) by (apply in_seq; lia).
  pose proof (proj1 (@map_ext_in_iff _ _ _ _ _) Hdist w Hin) as Hw'.
  cbv beta in Hw'. rewrite Hw'.
  destruct (String.eqb (format_b 4 w) (reverse_string (format_b 4 v)));
    rewrite Q2toC_rational; f_equal; unfold Q2R; simpl; lra.
Qed.

Lemma grover_amplifies_reversed_target_witness :
  exists (qc : Circuit R) (psi : list C),
    grover_circuit R 4 "1011" (Z.to_nat (grover_iterations 4)) = Ok qc
    /\ simulate qc = Ok psi
    /\ forall outcome : string,
         bitstring outcome = true -> String.length outcome = 4 ->
         outcome_probability qc psi outcome
         = ((if String.eqb outcome (reverse_string "1011")
             then 63001 / 65536 else 169 / 65536)%R, 0%R).
Proof.
  apply (@grover_amplifies_reversed_target "1011"); reflexivity.
Defined.

(* ------------------------------------------------------------------ *)
(** ** The diffuser *)

Lemma amp_apply_h (q : nat) (psi : list C) (j : nat) :
  j < List.length psi ->
  amp (apply_h q psi) j
  = if Nat.testbit j q
    then Cscale (/ sqrt 2) (Csub (amp psi (flip_bit q j)) (amp psi j))
    else Cscale (/ sqrt 2) (Cadd (amp psi j) (amp psi (flip_bit q j))).
Proof. intro Hj. unfold apply_h. now rewrite amp_tabulate. Qed.

Lemma amp_apply_mcx (cs : list nat) (t : nat) (psi : list C) (j : nat) :
  j < List.length psi ->
  amp (apply_mcx cs t psi) j
  = if controls_set cs j then amp psi (flip_bit t j) else amp psi j.
Proof. intro Hj. unfold apply_mcx. now rewrite amp_tabulate. Qed.

Lemma hadamard_pair (a b : C) :
  Cscale (/ sqrt 2) (Cadd (Cscale (/ sqrt 2) (Cadd a b)) (Cscale (/ sqrt 2) (Csub a b))) = a
  /\ Cscale (/ sqrt 2) (Csub (Cscale (/ sqrt 2) (Cadd a b)) (Cscale (/ sqrt 2) (Csub a b))) = b
  /\ Cscale (/ sqrt 2) (Cadd (Cscale (/ sqrt 2) (Csub a b)) (Cscale (/ sqrt 2) (Cadd a b))) = a
  /\ Cscale (/ sqrt 2) (Csub (Cscale (/ sqrt 2) (Csub a b)) (Cscale (/ sqrt 2) (Cadd a b)))
     = Copp b.
Proof.
  destruct a as [a1 a2], b as [b1 b2].
  unfold Cscale, Cadd, Csub, Copp. cbn [fst snd].
  pose proof rsqrt2_sqr as Hr. revert Hr. generalize (/ sqrt 2)%R. intros r Hr.
  assert (Hr2 : (r ^ 2 = / 2)%R) by (rewrite <- Hr; ring).
  repeat split; apply (f_equal2 pair); ring_simplify; rewrite ?Hr2; lra.
Qed.

(** Hadamard, multi-controlled X and Hadamard again on the target act as a
    multi-controlled Z: the amplitude is negated where all controls and the
    target are 1. *)
Lemma h_mcx_h (n : nat) (cs : list nat) (q : nat) (psi : list C) (j : nat) :
  ~ In q cs -> q < n -> List.length psi = 2 ^ n -> j < 2 ^ n ->
  amp (apply_h q (apply_mcx cs q (apply_h q psi))) j
  = if controls_set cs j && Nat.testbit j q then Copp (amp psi j) else amp psi j.
Proof.
  intros Hq Hqn Hlen Hj.
  assert (Hf : flip_bit q j < 2 ^ n) by now apply flip_bit_lt.
  assert (Hl1 : List.length (apply_h q psi) = 2 ^ n)
    by (unfold apply_h; now rewrite tabulate_length).
  assert (Hl2 : List.length (apply_mcx cs q (apply_h q psi)) = 2 ^ n)
    by (unfold apply_mcx; now rewrite tabulate_length).
  rewrite amp_apply_h by (rewrite Hl2; exact Hj).
  rewrite !amp_apply_mcx by (rewrite Hl1; assumption).
  rewrite controls_set_flip by exact Hq.
  rewrite flip_bit_involutive.
  destruct (hadamard_pair (amp psi j) (amp psi (flip_bit q j))) as [P1 [P2 [P3 P4]]].
  destruct (hadamard_pair (amp psi (flip_bit q j)) (amp psi j)) as [Q1 [Q2' [Q3 Q4]]].
  destruct (controls_set cs j); cbn [andb].
  - rewrite !amp_apply_h by (rewrite Hlen; assumption).
    rewrite flip_bit_testbit_same, flip_bit_involutive.
    destruct (Nat.testbit j q); cbn [negb].
    + exact Q4.
    + exact P3.
  - rewrite !amp_apply_h by (rewrite Hlen; assumption).
    rewrite flip_bit_testbit_same, flip_bit_involutive.
    destruct (Nat.testbit j q); cbn [negb].
    + exact Q2'.
    + exact P1.
Qed.

Lemma forallb_seq_last (f : nat -> bool) (k : nat) :
  0 < k -> forallb f (seq 0 k) = forallb f (seq 0 (k - 1)) && f (k - 1).
Proof.
  intro Hk. replace k with (S (k - 1)) at 1 by lia.
  rewrite seq_S, forallb_app. simpl. now rewrite andb_true_r.
Qed.

Lemma forallb_eq_in (X : Type) (f g : X -> bool) (l : list X) :
  (forall x, In x l -> f x = g x) -> forallb f l = forallb g l.
Proof.
  induction l as [|x l IH]; intro Hfg; simpl; [reflexivity |].
  rewrite (Hfg x (or_introl eq_refl)), IH; [reflexivity |].
  intros y Hy. apply Hfg. now right.
Qed.

Lemma existsb_eqb_seq (i k : nat) : i < k -> existsb (Nat.eqb i) (seq 0 k) = true.
Proof.
  intro Hi. apply existsb_exists. exists i. split; [apply in_seq; lia | apply Nat.eqb_refl].
Qed.

(** The part of the diffuser between the two Hadamard layers negates the
    amplitudes of the basis states whose search qubits are all 0. *)
Lemma diffuser_core_action (k : nat) (phi : list C) (j : nat) :
  0 < k -> List.length phi = 2 ^ (k + 1) -> j < 2 ^ (k + 1) ->
  amp (apply_gates (map PauliX (seq 0 k)
                    ++ [Hadamard (k - 1); MultiControlledX (seq 0 (k - 1)) (k - 1);
                        Hadamard (k - 1)]
                    ++ map PauliX (seq 0 k)) phi) j
  = if forallb (fun i => negb (Nat.testbit j i)) (seq 0 k)
    then Copp (amp phi j) else amp phi j.
Proof.
  intros Hk Hlen Hj.
  assert (Hqs : Forall (fun q => q < k + 1) (seq 0 k))
    by (apply Forall_forall; intros q Hq; apply in_seq in Hq; lia).
  set (m := x_mask (seq 0 k)).
  assert (Hm : m < 2 ^ (k + 1)) by now apply x_mask_lt.
  assert (Hjm : Nat.lxor j m < 2 ^ (k + 1)) by now apply lxor_lt_pow2.
  rewrite !apply_gates_app.
  change (apply_gates [Hadamard (k - 1); MultiControlledX (seq 0 (k - 1)) (k - 1);
                       Hadamard (k - 1)] ?st)
    with (apply_h (k - 1) (apply_mcx (seq 0 (k - 1)) (k - 1) (apply_h (k - 1) st))).
  set (phi1 := apply_gates (map PauliX (seq 0 k)) phi).
  assert (Hl1 : List.length phi1 = 2 ^ (k + 1))
    by (unfold phi1; now rewrite apply_gates_length).
  set (phi2 := apply_h (k - 1) (apply_mcx (seq 0 (k - 1)) (k - 1) (apply_h (k - 1) phi1))).
  assert (Hl2 : List.length phi2 = 2 ^ (k + 1)).
  { change phi2 with (apply_gates [Hadamard (k - 1); MultiControlledX (seq 0 (k - 1)) (k - 1);
                                   Hadamard (k - 1)] phi1).
    now rewrite apply_gates_length. }
  rewrite (@apply_x_layer C R _ (k + 1) (seq 0 k) phi2 Hl2 Hqs).
  rewrite amp_permute by (rewrite Hl2; exact Hj). fold m.
  unfold phi2.
  rewrite (@h_mcx_h (k + 1) (seq 0 (k - 1)) (k - 1) phi1 (Nat.lxor j m));
    [| rewrite in_seq; lia | lia | exact Hl1 | exact Hjm].
  assert (Hback : amp phi1 (Nat.lxor j m) = amp phi j).
  { unfold phi1.
    rewrite (@apply_x_layer C R _ (k + 1) (seq 0 k) phi Hlen Hqs).
    rewrite amp_permute by (rewrite Hlen; exact Hjm). fold m.
    now rewrite Nat.lxor_assoc, Nat.lxor_nilpotent, Nat.lxor_0_r. }
  rewrite Hback.
  assert (Hcond : controls_set (seq 0 (k - 1)) (Nat.lxor j m)
                  && Nat.testbit (Nat.lxor j m) (k - 1)
                  = forallb (fun i => negb (Nat.testbit j i)) (seq 0 k)).
  { unfold controls_set.
    rewrite <- (forallb_seq_last (Nat.testbit (Nat.lxor j m)) Hk).
    apply forallb_eq_in. intros i Hi. apply in_seq in Hi.
    rewrite Nat.lxor_spec. unfold m.
    rewrite testbit_x_mask by apply seq_NoDup.
    rewrite existsb_eqb_seq by lia.
    now destruct (Nat.testbit j i). }
  now rewrite Hcond.
Qed.

(** X22.  The diffuser is a Hadamard layer on the search qubits, a sign
    flip of the basis states whose search qubits are all 0 (built from X
    gates around the multi-controlled X between two Hadamards), and the
    Hadamard layer again: the reflection about the uniform superposition
    up to a global sign.  The ancilla is not touched in between. *)
Theorem diffuser_decomposition :
  forall (k : nat) (psi : list C),
    0 < k ->
    List.length psi = 2 ^ (k + 1) ->
    let phi := apply_gates (map Hadamard (seq 0 k)) psi in
    apply_gates (diffuser_data R k) psi
    = apply_gates (map Hadamard (seq 0 k))
        (tabulate (2 ^ (k + 1)) (fun j =>
           if forallb (fun i => negb (Nat.testbit j i)) (seq 0 k)
           then Copp (amp phi j) else amp phi j)).
Proof.
  intros k psi Hk Hlen phi.
  assert (Hphi : List.length phi = 2 ^ (k + 1))
    by (unfold phi; now rewrite apply_gates_length).
  unfold diffuser_data.
  rewrite apply_gates_app. fold phi.
  rewrite !app_assoc. rewrite apply_gates_app. f_equal.
  rewrite <- !app_assoc.
  set (core := apply_gates _ phi).
  assert (Hcore : List.length core = 2 ^ (k + 1))
    by (unfold core; now rewrite apply_gates_length).
  rewrite <- (tabulate_amp core), Hcore.
  apply tabulate_ext. intros j Hj.
  unfold core. now apply diffuser_core_action.
Qed.

Lemma diffuser_decomposition_witness :
  let phi := apply_gates (map Hadamard (seq 0 2)) (init_state (A:=C) 3) in
  apply_gates (diffuser_data R 2) (init_state (A:=C) 3)
  = apply_gates (map Hadamard (seq 0 2))
      (tabulate (2 ^ (2 + 1)) (fun j =>
         if forallb (fun i => negb (Nat.testbit j i)) (seq 0 2)
         then Copp (amp phi j) else amp phi j)).
Proof.
  apply (@diffuser_decomposition 2 (init_state 3)); [lia | reflexivity].
Defined.
